(** * Diagnostics extraction of [mcp_tex.py]: a shallow embedding

    The development follows [validate_tex] of [src/mcp_tex.py]:

    - the fragments of Python's [str], [int] and [re] that the function
      calls (a backtracking matcher with the priorities of CPython's
      [sre]: ordered alternation, greedy repetition, zero-width
      protection in loops, [must_advance] after an empty match);
    - the four warning rules and their extractors, the duplicate check,
      the error chunker and the report;
    - the calls to the outside (path resolution, existence tests, the
      [pdflatex] run, reading the log) as state passing over an abstract
      world, with a trace of the calls made.

    Text is a list of 8-bit characters (code points 0..255).  The values
    of Python's [int] are unbounded and modelled by [N]; the conversion
    [int(str)] raises above 4300 digits, as CPython does by default. *)

From Stdlib Require Import Ascii String List Arith NArith Bool Lia.
From Stdlib Require Import DecimalString DecimalNat.
Import ListNotations.

Set Implicit Arguments.

(** ** Text and the [str] methods used *)

Definition text := list ascii.

Definition T (s : string) : text := list_ascii_of_string s.

Definition nl : ascii := "010"%char.

(** [str.isspace] on one character, for code points below 256. *)
Definition isspace (c : ascii) : bool :=
  let n := nat_of_ascii c in
  ((9 <=? n) && (n <=? 13)) || ((28 <=? n) && (n <=? 32))
  || (n =? 133) || (n =? 160).

(** Decimal digits: what [\d] matches below code point 256. *)
Definition isdigit (c : ascii) : bool :=
  let n := nat_of_ascii c in (48 <=? n) && (n <=? 57).

Definition digit_value (c : ascii) : N := N_of_ascii c - 48.

Fixpoint lstrip (s : text) : text :=
  match s with
  | c :: s' => if isspace c then lstrip s' else s
  | [] => []
  end.

Definition rstrip (s : text) : text := rev (lstrip (rev s)).

(** [s.strip()] *)
Definition strip (s : text) : text := rstrip (lstrip s).

(** [s.split(sep)] for a one-character separator: never the empty list. *)
Fixpoint split_on (sep : ascii) (s : text) : list text :=
  match s with
  | [] => [[]]
  | c :: s' =>
      if Ascii.eqb c sep then [] :: split_on sep s'
      else match split_on sep s' with
           | piece :: pieces => (c :: piece) :: pieces
           | [] => [[c]]
           end
  end.

(** [s.startswith(p)] and [s.endswith(p)] *)
Fixpoint startswith (s p : text) {struct p} : bool :=
  match p with
  | [] => true
  | a :: p' =>
      match s with
      | c :: s' => Ascii.eqb c a && startswith s' p'
      | [] => false
      end
  end.

Definition endswith (s p : text) : bool := startswith (rev s) (rev p).

(** [str(n)] for a length. *)
Definition str_of_nat (n : nat) : text :=
  T (NilZero.string_of_uint (Nat.to_uint n)).

(** ** Exceptions and outcomes *)

Inductive exn := Exn (cls msg : text).

Definition str_of_exn (e : exn) : text := let (_, msg) := e in msg.

(** What a call to the outside gives back. *)
Inductive result (A : Type) :=
| Ok (a : A)
| Err (e : exn).
Arguments Ok {A} a.
Arguments Err {A} e.

(** What a run of modelled code gives back; [FuelOut] is the model's own
    failure (a loop bound exceeded), no behaviour of the program. *)
Inductive outcome (A : Type) :=
| Returned (a : A)
| Raised (e : exn)
| FuelOut.
Arguments Returned {A} a.
Arguments Raised {A} e.
Arguments FuelOut {A}.

Definition obind {A B} (o : outcome A) (f : A -> outcome B) : outcome B :=
  match o with
  | Returned a => f a
  | Raised e => Raised e
  | FuelOut => FuelOut
  end.

Notation "x <- c ;; k" := (obind c (fun x => k))
  (at level 61, c at next level, right associativity).

(** The default of [sys.int_max_str_digits]: [int(str)] refuses a
    literal with more digits, with this [ValueError]. *)
Definition int_max_str_digits : nat := 4300.

Definition int_limit_error (n : nat) : exn :=
  Exn (T "ValueError")
    (T "Exceeds the limit (4300 digits) for integer string conversion: value has "
     ++ str_of_nat n
     ++ T " digits; use sys.set_int_max_str_digits() to increase the limit").

(** [int(s)] on a group's text.  Only unsigned decimal literals are
    modelled, which is all a [(\d+)] group can hold; [int(None)] and any
    other text raise, and so does a literal above the limit. *)
Definition decimal (ds : text) : N :=
  fold_left (fun acc c => (10 * acc + digit_value c)%N) ds 0%N.

Definition int (s : option text) : outcome N :=
  match s with
  | None => Raised (Exn (T "TypeError") (T "int() argument must be a string"))
  | Some ds =>
      match ds with
      | [] => Raised (Exn (T "ValueError") (T "invalid literal for int()"))
      | _ :: _ =>
          if forallb isdigit ds then
            if length ds <=? int_max_str_digits then Returned (decimal ds)
            else Raised (int_limit_error (length ds))
          else Raised (Exn (T "ValueError") (T "invalid literal for int()"))
      end
  end.

(** An f-string field [{m.group(i)}]: [None] prints as its name. *)
Definition fmt (s : option text) : text :=
  match s with
  | Some t => t
  | None => T "None"
  end.

(** ** Regular expressions *)

Inductive regex :=
| Chr (p : ascii -> bool)      (* one character of a class *)
| Eps
| Seq (r1 r2 : regex)
| Alt (r1 r2 : regex)          (* r1|r2, r1 tried first *)
| Star (r : regex)             (* r*, greedy *)
| Group (n : nat) (r : regex)  (* capturing group number n *)
| EndAnchor.                   (* $ without MULTILINE *)

Definition Plus (r : regex) : regex := Seq r (Star r).
Definition Opt (r : regex) : regex := Alt r Eps.
Definition Lit (s : text) : regex :=
  fold_right (fun c r => Seq (Chr (Ascii.eqb c)) r) Eps s.
Definition Not (c : ascii) : regex := Chr (fun x => negb (Ascii.eqb x c)).

Notation "a +++ b" := (Seq a b) (at level 60, right associativity).

(** The matcher's state: the text still ahead and the groups set so far
    (latest first). *)
Record mstate := MState { rest : text; caps : list (nat * text) }.

Inductive mres :=
| Hit (st : mstate)
| Miss
| NoFuel.

Fixpoint lookup (n : nat) (cs : list (nat * text)) : option text :=
  match cs with
  | [] => None
  | (i, t) :: cs' => if i =? n then Some t else lookup n cs'
  end.

(** The text between two positions, the later given by what is ahead of it. *)
Definition consumed (s s' : text) : text := firstn (length s - length s') s.

(** [$]: at the end, or before a newline that ends the text. *)
Definition at_end (s : text) : bool :=
  match s with
  | [] => true
  | [c] => Ascii.eqb c nl
  | _ => false
  end.

(** The loop of a greedy repetition over a body matcher: one more
    iteration is tried first, then the continuation.  A loop stops
    repeating after an iteration that matched the empty text, as [sre]
    does. *)
Section Loop.

Variable body : mstate -> (mstate -> mres) -> mres.
Variable k : mstate -> mres.

Fixpoint star_loop (fuel : nat) (st : mstate) {struct fuel} : mres :=
  match fuel with
  | 0 => NoFuel
  | S fuel' =>
      match body st (fun st1 =>
              if length (rest st1) =? length (rest st)
              then k st1 else star_loop fuel' st1) with
      | Miss => k st
      | other => other
      end
  end.

End Loop.

(** Backtracking by continuations. *)
Fixpoint mt (r : regex) (st : mstate) (k : mstate -> mres) {struct r} : mres :=
  match r with
  | Chr p =>
      match rest st with
      | c :: s' => if p c then k (MState s' (caps st)) else Miss
      | [] => Miss
      end
  | Eps => k st
  | Seq r1 r2 => mt r1 st (fun st1 => mt r2 st1 k)
  | Alt r1 r2 =>
      match mt r1 st k with
      | Miss => mt r2 st k
      | other => other
      end
  | Star r1 => star_loop (mt r1) k (S (length (rest st))) st
  | Group n r1 =>
      mt r1 st (fun st1 =>
        k (MState (rest st1) ((n, consumed (rest st) (rest st1)) :: caps st1)))
  | EndAnchor => if at_end (rest st) then k st else Miss
  end.

(** The end of the pattern: with [must_advance] an empty match fails. *)
Definition accept (must_advance : bool) (s : text) (st : mstate) : mres :=
  if must_advance && (length (rest st) =? length s) then Miss else Hit st.

Definition match_here (r : regex) (must_advance : bool) (s : text) : mres :=
  mt r (MState s []) (accept must_advance s).

(** A match object. *)
Record rmatch := RMatch {
  m_start : nat;                 (* offset of the match in the whole text *)
  m_group0 : text;               (* m.group(0) *)
  m_groups : list (nat * text);  (* the groups that took part *)
  m_rest : text                  (* the text after the match *)
}.

(** [m.group(i)] for i > 0 *)
Definition group (m : rmatch) (i : nat) : option text := lookup i (m_groups m).

(** [re.search] from the front of [s], which lies at offset [pos];
    [must_advance] holds for the first position only. *)
Fixpoint search_at (r : regex) (must_advance : bool) (pos : nat) (s : text)
  : outcome (option rmatch) :=
  match match_here r must_advance s with
  | Hit st =>
      Returned (Some (RMatch pos (consumed s (rest st)) (caps st) (rest st)))
  | NoFuel => FuelOut
  | Miss =>
      match s with
      | [] => Returned None
      | _ :: s' => search_at r false (S pos) s'
      end
  end.

Definition search (r : regex) (s : text) : outcome (option rmatch) :=
  search_at r false 0 s.

Definition end_pos (m : rmatch) : nat := m_start m + length (m_group0 m).

(** [re.finditer]: the next search starts where the match ended and must
    advance if the match was empty. *)
Fixpoint finditer_from (fuel : nat) (r : regex) (must_advance : bool)
  (pos : nat) (s : text) : outcome (list rmatch) :=
  match fuel with
  | 0 => FuelOut
  | S fuel' =>
      found <- search_at r must_advance pos s ;;
      match found with
      | None => Returned []
      | Some m =>
          ms <- finditer_from fuel' r (length (m_group0 m) =? 0)
                  (end_pos m) (m_rest m) ;;
          Returned (m :: ms)
      end
  end.

Definition finditer (r : regex) (s : text) : outcome (list rmatch) :=
  finditer_from (2 * length s + 2) r false 0 s.

(** The number of capturing groups of a pattern. *)
Fixpoint ngroups (r : regex) : nat :=
  match r with
  | Chr _ | Eps | EndAnchor => 0
  | Seq r1 r2 | Alt r1 r2 => Nat.max (ngroups r1) (ngroups r2)
  | Star r1 => ngroups r1
  | Group n r1 => Nat.max n (ngroups r1)
  end.

(** [re.split]: the text before each match, then the match's groups
    ([None] for a group that took no part), and at last the text after
    the last match. *)
Fixpoint split_from (fuel : nat) (r : regex) (must_advance : bool)
  (pos : nat) (s : text) : outcome (list (option text)) :=
  match fuel with
  | 0 => FuelOut
  | S fuel' =>
      found <- search_at r must_advance pos s ;;
      match found with
      | None => Returned [Some s]
      | Some m =>
          pieces <- split_from fuel' r (length (m_group0 m) =? 0)
                      (end_pos m) (m_rest m) ;;
          Returned (Some (firstn (m_start m - pos) s)
                    :: map (group m) (seq 1 (ngroups r)) ++ pieces)
      end
  end.

Definition split (r : regex) (s : text) : outcome (list (option text)) :=
  split_from (2 * length s + 2) r false 0 s.

(** ** Diagnostic records *)

(** The line reference of a record: key ["line"], key ["lines"], or neither. *)
Inductive lineref :=
| NoLine
| Single (line : N)
| Range (first last : N).

(** One warning or error dictionary. *)
Record diag := Diag { message : text; lines : lineref }.

Definition text_eqb (a b : text) : bool :=
  if list_eq_dec ascii_dec a b then true else false.

Definition lineref_eqb (a b : lineref) : bool :=
  match a, b with
  | NoLine, NoLine => true
  | Single x, Single y => N.eqb x y
  | Range x1 x2, Range y1 y2 => N.eqb x1 y1 && N.eqb x2 y2
  | _, _ => false
  end.

(** [==] on two record dictionaries. *)
Definition diag_eqb (a b : diag) : bool :=
  text_eqb (message a) (message b) && lineref_eqb (lines a) (lines b).

(** [w in ws] *)
Definition contains (ws : list diag) (w : diag) : bool := existsb (diag_eqb w) ws.

(** ** The warning rules of [validate_tex] *)

Definition digit : regex := Chr isdigit.
Definition nonspace : regex := Chr (fun c => negb (isspace c)).

(** Line 141.  Group 1 is [(?:Underfull|Overfull) \\[^(]*], then the text
    [ in paragraph at lines ], group 2 [\d+], the text [--], group 3 [\d+]. *)
Definition box_pattern : regex :=
  Group 1 (Alt (Lit (T "Underfull")) (Lit (T "Overfull"))
           +++ Lit (T " \") +++ Star (Not "("))
  +++ Lit (T " in paragraph at lines ")
  +++ Group 2 (Plus digit) +++ Lit (T "--") +++ Group 3 (Plus digit).

Definition box_extract (m : rmatch) : outcome diag :=
  match group m 1 with
  | None => Raised (Exn (T "TypeError") (T "message is None"))
  | Some msg =>
      a <- int (group m 2) ;;
      b <- int (group m 3) ;;
      Returned (Diag msg (Range a b))
  end.

(** Line 146.  The text [LaTeX Warning: ], group 1 [[^.]*], the text [ on ],
    the optional group 2 [input ], the text [line ], group 3 [\d+]. *)
Definition latex_line_pattern : regex :=
  Lit (T "LaTeX Warning: ") +++ Group 1 (Star (Not "."))
  +++ Lit (T " on ") +++ Opt (Group 2 (Lit (T "input ")))
  +++ Lit (T "line ") +++ Group 3 (Plus digit).

Definition latex_line_extract (m : rmatch) : outcome diag :=
  n <- int (group m 3) ;;
  Returned (Diag (T "LaTeX Warning: " ++ fmt (group m 1)) (Single n)).

(** Line 154.  The text [Package ], group 1 [[^\s]+], the text [ Warning: ],
    group 2 [[^.]*], the text [ on ], the optional group 3 [input ], the text
    [line ], group 4 [\d+]. *)
Definition package_line_pattern : regex :=
  Lit (T "Package ") +++ Group 1 (Plus nonspace)
  +++ Lit (T " Warning: ") +++ Group 2 (Star (Not "."))
  +++ Lit (T " on ") +++ Opt (Group 3 (Lit (T "input ")))
  +++ Lit (T "line ") +++ Group 4 (Plus digit).

Definition package_line_extract (m : rmatch) : outcome diag :=
  n <- int (group m 4) ;;
  Returned (Diag (T "Package " ++ fmt (group m 1) ++ T " Warning: "
                  ++ fmt (group m 2)) (Single n)).

(** Line 162.  [(?:LaTeX|Package [^\s]+)], the text [ Warning: ], group 1
    [[^.]*]. *)
Definition other_pattern : regex :=
  Alt (Lit (T "LaTeX")) (Lit (T "Package ") +++ Plus nonspace)
  +++ Lit (T " Warning: ") +++ Group 1 (Star (Not ".")).

Definition other_extract (m : rmatch) : outcome diag :=
  Returned (Diag (m_group0 m) NoLine).

Definition warning_patterns : list (regex * (rmatch -> outcome diag)) :=
  [ (box_pattern, box_extract);
    (latex_line_pattern, latex_line_extract);
    (package_line_pattern, package_line_extract);
    (other_pattern, other_extract) ].

(** The inner loop: one rule's matches, each extracted and appended
    unless already present. *)
Fixpoint add_matches (extract_func : rmatch -> outcome diag)
  (ms : list rmatch) (warnings : list diag) : outcome (list diag) :=
  match ms with
  | [] => Returned warnings
  | m :: ms' =>
      warning <- extract_func m ;;
      add_matches extract_func ms'
        (if contains warnings warning then warnings else warnings ++ [warning])
  end.

(** The outer loop over the rules. *)
Fixpoint add_patterns (ps : list (regex * (rmatch -> outcome diag)))
  (output : text) (warnings : list diag) : outcome (list diag) :=
  match ps with
  | [] => Returned warnings
  | (pattern, extract_func) :: ps' =>
      ms <- finditer pattern output ;;
      warnings' <- add_matches extract_func ms warnings ;;
      add_patterns ps' output warnings'
  end.

Definition scan_warnings (output : text) : outcome (list diag) :=
  add_patterns warning_patterns output [].

(** ** The error chunker *)

(** Line 176.  One group around the whole pattern: the marker [!], then
    [(?:[^!]|$)*]. *)
Definition chunk_pattern : regex :=
  Group 1 (Lit (T "!") +++ Star (Alt (Not "!") EndAnchor)).

(** Line 185.  The text [l.] (the dot escaped), then group 1 [\d+]. *)
Definition line_pattern : regex :=
  Lit (T "l.") +++ Group 1 (Plus digit).

(** The body of the loop for a chunk that starts with the marker. *)
Definition error_of_chunk (chunk : text) : outcome diag :=
  match nth_error (split_on nl chunk) 0 with
  | None => Raised (Exn (T "IndexError") (T "list index out of range"))
  | Some first =>
      let error_msg := strip first in
      line_match <- search line_pattern chunk ;;
      match line_match with
      | Some m => n <- int (group m 1) ;; Returned (Diag error_msg (Single n))
      | None => Returned (Diag error_msg NoLine)
      end
  end.

Fixpoint add_chunks (error_chunks : list (option text)) (errors : list diag)
  : outcome (list diag) :=
  match error_chunks with
  | [] => Returned errors
  | None :: _ =>
      Raised (Exn (T "AttributeError") (T "'NoneType' object has no attribute 'startswith'"))
  | Some chunk :: chunks' =>
      if startswith chunk (T "!")
      then error_dict <- error_of_chunk chunk ;;
           add_chunks chunks' (errors ++ [error_dict])
      else add_chunks chunks' errors
  end.

Definition scan_errors (output : text) : outcome (list diag) :=
  error_chunks <- split chunk_pattern output ;;
  add_chunks error_chunks [].

(** ** The report *)

Record report := Report {
  warnings : list diag;
  errors : list diag;
  summary : text;
  log_file : option text;
  success : bool
}.

(** The dictionary built by the final [return]. *)
Definition make_report (warnings errors : list diag) (log_file_path : option text)
  : report :=
  Report warnings errors
    (str_of_nat (length warnings) ++ T " warnings, "
     ++ str_of_nat (length errors) ++ T " errors found")
    log_file_path
    (length errors =? 0).

(** Lines 133-189: from the log text to the two lists. *)
Definition parse_log (output : text) : outcome (list diag * list diag) :=
  warnings <- scan_warnings output ;;
  errors <- scan_errors output ;;
  Returned (warnings, errors).

(** ** The calls to the outside *)

Inductive event :=
| EvResolve (path : text)          (* Path(p).expanduser().resolve() *)
| EvExists (path : text)           (* p.exists() *)
| EvPdflatex (cwd name : text)     (* subprocess.run(["pdflatex", ...], cwd=...) *)
| EvReadLog (path : text).         (* open(p, ...).read() *)

(** The environment: each call answers from the world and may change it
    or raise; the four path operations are pure. *)
Record platform (W : Type) := Platform {
  pf_resolve : text -> W -> result text * W;
  pf_exists : text -> W -> result bool * W;
  pf_pdflatex : text -> text -> W -> result text * W;
  pf_read : text -> W -> result text * W;
  pf_parent : text -> text;
  pf_stem : text -> text;
  pf_name : text -> text;
  pf_join : text -> text -> text
}.

(** What [validate_tex] returns: the report, or the [{"error": ...}]
    dictionary. *)
Inductive response :=
| ReportValue (r : report)
| ErrorValue (msg : text).

Section Validate.

Context {W : Type} (pf : platform W).

(** Computations over the world and the trace of calls (latest last). *)
Definition io (A : Type) : Type := W * list event -> outcome A * (W * list event).

Definition ret {A} (a : A) : io A := fun s => (Returned a, s).

Definition bind {A B} (c : io A) (f : A -> io B) : io B :=
  fun s =>
    match c s with
    | (Returned a, s') => f a s'
    | (Raised e, s') => (Raised e, s')
    | (FuelOut, s') => (FuelOut, s')
    end.

Definition pure {A} (o : outcome A) : io A := fun s => (o, s).

Definition call {A} (ev : event) (f : W -> result A * W) : io A :=
  fun s =>
    let (w, tr) := s in
    match f w with
    | (Ok a, w') => (Returned a, (w', tr ++ [ev]))
    | (Err e, w') => (Raised e, (w', tr ++ [ev]))
    end.

(** try: ... except Exception as e: ... *)
Definition try_except {A} (body : io A) (handler : exn -> io A) : io A :=
  fun s =>
    match body s with
    | (Raised e, s') => handler e s'
    | other => other
    end.

Notation "x <~ c ; k" := (bind c (fun x => k))
  (at level 61, c at next level, right associativity).

Definition validate_tex (tex_path : text) : io response :=
  try_except
    (tex_file <~ call (EvResolve tex_path) (pf_resolve pf tex_path) ;
     file_exists <~ call (EvExists tex_file) (pf_exists pf tex_file) ;
     if negb file_exists then
       ret (ErrorValue (T "File " ++ tex_path ++ T " does not exist"))
     else if negb (endswith tex_file (T ".tex")) then
       ret (ErrorValue (T "File " ++ tex_path ++ T " is not a LaTeX file"))
     else
       let tex_dir := pf_parent pf tex_file in
       let tex_basename := pf_stem pf tex_file in
       stdout <~ call (EvPdflatex tex_dir (pf_name pf tex_file))
                   (pf_pdflatex pf tex_dir (pf_name pf tex_file)) ;
       let log_path := pf_join pf tex_dir (tex_basename ++ T ".log") in
       log_exists <~ call (EvExists log_path) (pf_exists pf log_path) ;
       output <~ (if log_exists
                  then call (EvReadLog log_path) (pf_read pf log_path)
                  else ret stdout) ;
       parsed <~ pure (parse_log output) ;
       still_exists <~ call (EvExists log_path) (pf_exists pf log_path) ;
       let log_file_path := if still_exists then Some log_path else None in
       ret (ReportValue (make_report (fst parsed) (snd parsed) log_file_path)))
    (fun e =>
       ret (ErrorValue (T "Failed to validate LaTeX file: " ++ str_of_exn e))).

End Validate.

(** A computation that stays within the model's loop bounds. *)
Definition bounded {W A : Type} (c : @io W A) : Prop :=
  forall s, fst (c s) <> FuelOut.

(** The parsing phase alone, on a log text already obtained. *)
Definition validate_log (output : text) (log_file_path : option text)
  : outcome report :=
  parsed <- parse_log output ;;
  Returned (make_report (fst parsed) (snd parsed) log_file_path).

(** ** Texts and an environment to run the model on *)

(** Scenario A of the specification: a box notice with a size clause. *)
Definition scenarioA : text :=
  T "Overfull \hbox (12.34pt too wide) in paragraph at lines 15--16" ++ [nl].

(** The same notice without the parenthesised clause. *)
Definition box_plain : text :=
  T "Overfull \hbox in paragraph at lines 15--16" ++ [nl].

(** Scenario B: one error block with a source line. *)
Definition scenarioB : text :=
  T "! Undefined control sequence." ++ [nl] ++ T "l.20 \foo" ++ [nl].

(** Scenario D: the same notice on two lines, as LaTeX writes it, with
    the closing period; and without the period. *)
Definition scenarioD : text :=
  T "LaTeX Warning: X on line 5." ++ [nl]
  ++ T "LaTeX Warning: X on line 5." ++ [nl].

Definition scenarioD_bare : text :=
  T "LaTeX Warning: X on line 5" ++ [nl]
  ++ T "LaTeX Warning: X on line 5" ++ [nl].

(** A marker character inside a line. *)
Definition inner_marker : text := T "a!b".

(** Does some line of the text begin with the marker character? *)
Definition line_starts_with_marker (output : text) : bool :=
  existsb (fun line => startswith line (T "!")) (split_on nl output).

(** A small environment: the world is the list of existing paths,
    [resolve] keeps the path, [pdflatex] prints nothing, every file reads
    as empty. *)
Definition demo_platform : platform (list text) :=
  Platform
    (fun path w => (Ok path, w))
    (fun path w => (Ok (existsb (text_eqb path) w), w))
    (fun cwd name w => (Ok [], w))
    (fun path w => (Ok [], w))
    (fun path => [])
    (fun path => firstn (length path - 4) path)
    (fun path => path)
    (fun dir name => dir ++ name).

(** ** What a match is, without the search order

    [Matches r st st']: the pattern [r] can take the matcher from [st] to
    [st'].  The matcher's answers are among these (lemma [mt_sound]). *)
Inductive Matches : regex -> mstate -> mstate -> Prop :=
| M_Chr p c s cs :
    p c = true -> Matches (Chr p) (MState (c :: s) cs) (MState s cs)
| M_Eps st : Matches Eps st st
| M_Seq r1 r2 st st1 st2 :
    Matches r1 st st1 -> Matches r2 st1 st2 -> Matches (Seq r1 r2) st st2
| M_AltL r1 r2 st st' : Matches r1 st st' -> Matches (Alt r1 r2) st st'
| M_AltR r1 r2 st st' : Matches r2 st st' -> Matches (Alt r1 r2) st st'
| M_Star0 r st : Matches (Star r) st st
| M_StarS r st st1 st2 :
    Matches r st st1 -> Matches (Star r) st1 st2 -> Matches (Star r) st st2
| M_Group n r st st1 :
    Matches r st st1 ->
    Matches (Group n r) st
      (MState (rest st1) ((n, consumed (rest st) (rest st1)) :: caps st1))
| M_End st : at_end (rest st) = true -> Matches EndAnchor st st.

(** A match object found in [s] after skipping [i] characters. *)
Definition found_in (r : regex) (s : text) (i : nat) (m : rmatch) : Prop :=
  exists pre,
    s = pre ++ m_group0 m ++ m_rest m /\ length pre = i /\
    Matches r (MState (m_group0 m ++ m_rest m) []) (MState (m_rest m) (m_groups m)).

(** A match object of [r] somewhere. *)
Definition match_of (r : regex) (m : rmatch) : Prop :=
  Matches r (MState (m_group0 m ++ m_rest m) []) (MState (m_rest m) (m_groups m)).

(** ** The candidate sequence and its first occurrences

    What the claims call the candidate warning sequence: every match of
    every rule, extracted, in rule order and then in match order. *)
Fixpoint extract_all (extract_func : rmatch -> outcome diag) (ms : list rmatch)
  : outcome (list diag) :=
  match ms with
  | [] => Returned []
  | m :: ms' =>
      c <- extract_func m ;;
      cs <- extract_all extract_func ms' ;;
      Returned (c :: cs)
  end.

Fixpoint candidates_of (ps : list (regex * (rmatch -> outcome diag)))
  (output : text) : outcome (list diag) :=
  match ps with
  | [] => Returned []
  | (pattern, extract_func) :: ps' =>
      ms <- finditer pattern output ;;
      here <- extract_all extract_func ms ;;
      later <- candidates_of ps' output ;;
      Returned (here ++ later)
  end.

Definition candidates (output : text) : outcome (list diag) :=
  candidates_of warning_patterns output.

(** The candidates that equal none of the candidates before them;
    [earlier] holds the candidates already passed. *)
Fixpoint first_occurrences (earlier cs : list diag) : list diag :=
  match cs with
  | [] => []
  | c :: cs' =>
      (if contains earlier c then [] else [c])
      ++ first_occurrences (earlier ++ [c]) cs'
  end.

(** One step of the duplicate check of lines 171-172. *)
Definition add_new (warnings : list diag) (warning : diag) : list diag :=
  if contains warnings warning then warnings else warnings ++ [warning].

(** ** Runs of characters and the chunks of a text *)

Fixpoint take_while (p : ascii -> bool) (s : text) : text :=
  match s with
  | c :: s' => if p c then c :: take_while p s' else []
  | [] => []
  end.

Fixpoint drop_while (p : ascii -> bool) (s : text) : text :=
  match s with
  | c :: s' => if p c then drop_while p s' else s
  | [] => []
  end.

Definition notbang (c : ascii) : bool := negb (Ascii.eqb c "!").

(** The text before the first marker character, and the chunks: each
    runs from a marker to just before the next one or to the end. *)
Fixpoint cut (s : text) : text * list text :=
  match s with
  | [] => ([], [])
  | c :: s' =>
      let (head, chunks) := cut s' in
      if Ascii.eqb c "!" then ([], (c :: head) :: chunks)
      else (c :: head, chunks)
  end.

(** The pieces [re.split] makes of a text cut this way. *)
Definition pieces_of (head : text) (chunks : list text) : list (option text) :=
  Some head :: flat_map (fun chunk => [Some chunk; Some []]) chunks.

(** ** Source-line markers of a chunk *)

(** The first line of a text: up to its first newline. *)
Definition first_line (s : text) : text :=
  take_while (fun c => negb (Ascii.eqb c nl)) s.

(** A non-empty run of decimal digits. *)
Definition digits (ds : text) : Prop := ds <> [] /\ forallb isdigit ds = true.

(** At offset [i] the chunk has a marker: the text [l.], then the digits
    [ds], and no further digit. *)
Definition marker_at (chunk : text) (i : nat) (ds : text) : Prop :=
  exists pre post,
    chunk = pre ++ T "l." ++ ds ++ post /\ length pre = i /\ digits ds /\
    match post with
    | c :: _ => isdigit c = false
    | [] => True
    end.

(** The same by computation: a marker at the front, and the digits of
    the first marker. *)
Definition marker_here (s : text) : bool :=
  match s with
  | a :: b :: c :: _ => Ascii.eqb a "l" && Ascii.eqb b "." && isdigit c
  | _ => false
  end.

Fixpoint find_marker (s : text) : option text :=
  if marker_here s then Some (take_while isdigit (skipn 2 s))
  else match s with
       | [] => None
       | _ :: s' => find_marker s'
       end.

(** A chunk: the marker, then text without a marker. *)
Definition is_chunk (chunk : text) : Prop :=
  exists body, chunk = "!"%char :: body /\ ~ In "!"%char body.

(** ** Further notions for the properties of the two tools *)

(** [needle in hay] for two texts. *)
Fixpoint text_in (needle hay : text) : bool :=
  startswith hay needle
  || match hay with
     | [] => false
     | _ :: hay' => text_in needle hay'
     end.

(** The three kinds of line reference. *)
Definition is_range (w : diag) : Prop := exists a b, lines w = Range a b.
Definition is_single (w : diag) : Prop := exists n, lines w = Single n.
Definition is_bare (w : diag) : Prop := lines w = NoLine.

(** An environment in which [pdflatex] prints scenario D and every file
    reads as scenario B; and one in which [pdflatex] cannot be started. *)
Definition log_platform : platform (list text) :=
  Platform
    (fun path w => (Ok path, w))
    (fun path w => (Ok (existsb (text_eqb path) w), w))
    (fun cwd name w => (Ok scenarioD, w))
    (fun path w => (Ok scenarioB, w))
    (fun path => [])
    (fun path => firstn (length path - 4) path)
    (fun path => path)
    (fun dir name => dir ++ name).

Definition broken_platform : platform (list text) :=
  Platform
    (fun path w => (Ok path, w))
    (fun path w => (Ok (existsb (text_eqb path) w), w))
    (fun cwd name w =>
       (Err (Exn (T "FileNotFoundError") (T "No such file or directory: 'pdflatex'")), w))
    (fun path w => (Ok [], w))
    (fun path => [])
    (fun path => firstn (length path - 4) path)
    (fun path => path)
    (fun dir name => dir ++ name).

(** ** [compile_tex_to_pdf]

    Lines 21-65.  The tool calls the path operations of above and runs a
    shell command; it returns the path of the PDF or raises. *)

Inductive shell_event :=
| ShPath (ev : event)      (* a path operation *)
| ShRun (cmd : text).      (* subprocess.run(cmd, check=True, shell=True) *)

(** The environment of the tool: the path operations, and the shell,
    which raises when the command cannot be run or exits with an error. *)
Record shell_platform (W : Type) := ShellPlatform {
  sh_files : platform W;
  sh_run : text -> W -> result unit * W
}.

Section Compile.

Context {W : Type} (sp : shell_platform W).

Definition sio (A : Type) : Type :=
  W * list shell_event -> outcome A * (W * list shell_event).

Definition sret {A} (a : A) : sio A := fun s => (Returned a, s).

Definition sraise {A} (e : exn) : sio A := fun s => (Raised e, s).

Definition sbind {A B} (c : sio A) (f : A -> sio B) : sio B :=
  fun s =>
    match c s with
    | (Returned a, s') => f a s'
    | (Raised e, s') => (Raised e, s')
    | (FuelOut, s') => (FuelOut, s')
    end.

Definition scall {A} (ev : shell_event) (f : W -> result A * W) : sio A :=
  fun s =>
    let (w, tr) := s in
    match f w with
    | (Ok a, w') => (Returned a, (w', tr ++ [ev]))
    | (Err e, w') => (Raised e, (w', tr ++ [ev]))
    end.

Definition stry {A} (body : sio A) (handler : exn -> sio A) : sio A :=
  fun s =>
    match body s with
    | (Raised e, s') => handler e s'
    | other => other
    end.

Notation "x <~ c ; k" := (sbind c (fun x => k))
  (at level 61, c at next level, right associativity).

(** The command line of line 48. *)
Definition pdflatex_cmd (output_dir tex_file : text) : text :=
  T "pdflatex -interaction=nonstopmode -output-directory=" ++ output_dir
  ++ T " " ++ tex_file.

Definition compile_tex_to_pdf (tex_path : text) : sio text :=
  let files := sh_files sp in
  tex_file <~ scall (ShPath (EvResolve tex_path)) (pf_resolve files tex_path) ;
  file_exists <~ scall (ShPath (EvExists tex_file)) (pf_exists files tex_file) ;
  if negb file_exists then
    sraise (Exn (T "ValueError") (T "TeX file does not exist: " ++ tex_path))
  else
    let output_dir := pf_parent files tex_file in
    let base_name := pf_stem files tex_file in
    let cmd := pdflatex_cmd output_dir tex_file in
    stry
      (_ <~ scall (ShRun cmd) (sh_run sp cmd) ;
       _ <~ scall (ShRun cmd) (sh_run sp cmd) ;
       let pdf_path := pf_join files output_dir (base_name ++ T ".pdf") in
       pdf_exists <~ scall (ShPath (EvExists pdf_path))
                       (pf_exists files pdf_path) ;
       if pdf_exists then sret pdf_path
       else sraise (Exn (T "ValueError")
                      (T "PDF file was not generated. Check TeX file for errors.")))
      (fun e =>
         sraise (Exn (T "ValueError")
                   (T "Error compiling TeX file: " ++ str_of_exn e))).

End Compile.

(** A shell whose runs leave [cv.pdf] behind, and one whose runs do
    nothing. *)
Definition demo_shell : shell_platform (list text) :=
  ShellPlatform demo_platform (fun cmd w => (Ok tt, T "cv.pdf" :: w)).

Definition idle_shell : shell_platform (list text) :=
  ShellPlatform demo_platform (fun cmd w => (Ok tt, w)).

(** Line 123: the log beside the document. *)
Definition log_path_of {W : Type} (pf : platform W) (tex_file : text) : text :=
  pf_join pf (pf_parent pf tex_file) (pf_stem pf tex_file ++ T ".log").

(** Line 57: the PDF beside the document. *)
Definition pdf_path_of {W : Type} (pf : platform W) (tex_file : text) : text :=
  pf_join pf (pf_parent pf tex_file) (pf_stem pf tex_file ++ T ".pdf").

(** Not a run of [pdflatex]. *)
Definition not_a_run (ev : event) : Prop :=
  match ev with
  | EvPdflatex _ _ => False
  | _ => True
  end.

(** A shell in which every command fails. *)
Definition failing_shell : shell_platform (list text) :=
  ShellPlatform demo_platform
    (fun cmd w =>
       (Err (Exn (T "CalledProcessError")
               (T "Command returned non-zero exit status 1.")), w)).

(** Runs of [pdflatex] and reads of a file among the calls. *)
Definition is_run (ev : event) : bool :=
  match ev with
  | EvPdflatex _ _ => true
  | _ => false
  end.

Definition is_read (ev : event) : bool :=
  match ev with
  | EvReadLog _ => true
  | _ => false
  end.

(** ** The digit limit of [int] and the texts it spares *)

(** [x] occurs in [s]. *)
Definition part (x s : text) : Prop := exists pre post, s = pre ++ x ++ post.

(** No run of digits in [s] is longer than the limit of [int]. *)
Definition short (s : text) : Prop :=
  forall ds, part ds s -> forallb isdigit ds = true ->
    length ds <= int_max_str_digits.

(** The same by computation; [run] digits stand just before [s]. *)
Fixpoint runs_within (limit run : nat) (s : text) : bool :=
  match s with
  | [] => true
  | c :: s' =>
      if isdigit c
      then (S run <=? limit) && runs_within limit (S run) s'
      else runs_within limit 0 s'
  end.

Definition short_numbers (s : text) : bool :=
  runs_within int_max_str_digits 0 s.

(** An outcome that is a value, or the refusal of [int] and nothing
    else. *)
Definition benign {A : Type} (o : outcome A) : Prop :=
  match o with
  | Returned _ => True
  | Raised e => exists n, int_max_str_digits < n /\ e = int_limit_error n
  | FuelOut => False
  end.

(** The text a match object was found in, from its start. *)
Definition match_text (m : rmatch) : text := m_group0 m ++ m_rest m.

(** A rule whose extractor can fail on its matches by the refusal of
    [int] only, and not at all where the numbers are short. *)
Definition rule_benign (rule : regex * (rmatch -> outcome diag)) : Prop :=
  forall m, match_of (fst rule) m -> benign (snd rule m).

Definition rule_short (rule : regex * (rmatch -> outcome diag)) : Prop :=
  forall m, match_of (fst rule) m -> short (match_text m) ->
    exists d, snd rule m = Returned d.

(** The records of a list of chunks, in order. *)
Fixpoint records_of (chunks : list text) : outcome (list diag) :=
  match chunks with
  | [] => Returned []
  | chunk :: chunks' =>
      d <- error_of_chunk chunk ;;
      ds <- records_of chunks' ;;
      Returned (d :: ds)
  end.

(** [ds] is the decimal numeral of [n]: digits, with the value [n], and
    without a leading zero unless it is the numeral of zero. *)
Definition numeral (ds : text) (n : nat) : Prop :=
  digits ds /\ decimal ds = N.of_nat n /\
  (ds = T "0" \/ exists c ds', ds = c :: ds' /\ c <> "0"%char).

(** [s] stripped of white space at both ends is [m]. *)
Definition trimmed (s m : text) : Prop :=
  exists lead trail,
    s = lead ++ m ++ trail /\
    forallb isspace lead = true /\ forallb isspace trail = true /\
    match m with
    | c :: _ => isspace c = false
    | [] => True
    end /\
    match rev m with
    | c :: _ => isspace c = false
    | [] => True
    end.

(** [l] is the first line of [s]: up to the first newline, or all of it. *)
Definition is_first_line (s l : text) : Prop :=
  ~ In nl l /\ (s = l \/ exists rest, s = l ++ nl :: rest).

(** An error block whose line number has one digit too many. *)
Definition oversize : text := T "!l." ++ repeat "1"%char 4301.

(** * Properties of the matcher *)

Lemma consumed_app (x s : text) : consumed (x ++ s) s = x.
Proof.
  unfold consumed. rewrite length_app.
  replace (length x + length s - length s) with (length x) by lia.
  rewrite firstn_app, firstn_all, Nat.sub_diag. simpl. apply app_nil_r.
Qed.

(** The loop bound is never reached: a repetition is entered with more
    fuel than characters ahead, and every further iteration has consumed
    one at least. *)
Lemma star_loop_fuel (body : mstate -> (mstate -> mres) -> mres)
  (k : mstate -> mres) (n : nat) :
  (forall st k', length (rest st) <= n ->
     (forall st', length (rest st') <= length (rest st) -> k' st' <> NoFuel) ->
     body st k' <> NoFuel) ->
  (forall st', length (rest st') <= n -> k st' <> NoFuel) ->
  forall fuel st, length (rest st) < fuel -> length (rest st) <= n ->
    star_loop body k fuel st <> NoFuel.
Proof.
  intros Hbody Hk. induction fuel as [|fuel IH]; intros st Hlt Hn; [lia|].
  simpl.
  assert (Hb : body st (fun st1 =>
             if length (rest st1) =? length (rest st)
             then k st1 else star_loop body k fuel st1) <> NoFuel).
  { apply Hbody; [exact Hn|]. intros st' Hle.
    destruct (Nat.eqb_spec (length (rest st')) (length (rest st))) as [E|E].
    - apply Hk. lia.
    - apply IH; lia. }
  destruct (body st _) eqn:E; try congruence.
  apply Hk. exact Hn.
Qed.

Lemma mt_fuel (r : regex) : forall st k,
  (forall st', length (rest st') <= length (rest st) -> k st' <> NoFuel) ->
  mt r st k <> NoFuel.
Proof.
  induction r as [p| |r1 IH1 r2 IH2|r1 IH1 r2 IH2|r1 IH1|n r1 IH1|];
    intros st k Hk; cbn [mt].
  - destruct (rest st) as [|c s'] eqn:E; [discriminate|].
    destruct (p c); [|discriminate]. apply Hk. simpl. lia.
  - apply Hk. lia.
  - apply IH1. intros st1 H1. apply IH2. intros st2 H2. apply Hk. lia.
  - specialize (IH1 st k Hk). destruct (mt r1 st k); try congruence.
    apply IH2. exact Hk.
  - apply star_loop_fuel with (n := length (rest st)); try lia.
    + intros st0 k' H0 Hk'. apply IH1. exact Hk'.
    + exact Hk.
  - apply IH1. intros st1 H1. apply Hk. simpl. lia.
  - destruct (at_end (rest st)); [|discriminate]. apply Hk. lia.
Qed.

Lemma match_here_fuel (r : regex) (adv : bool) (s : text) :
  match_here r adv s <> NoFuel.
Proof.
  apply mt_fuel. intros st' _. unfold accept.
  destruct (adv && _); discriminate.
Qed.

(** Every answer of the matcher is a match. *)
Lemma star_loop_sound (r : regex) (k : mstate -> mres) :
  (forall st k' res, mt r st k' = Hit res ->
     exists st', Matches r st st' /\ k' st' = Hit res) ->
  forall fuel st res, star_loop (mt r) k fuel st = Hit res ->
    exists st', Matches (Star r) st st' /\ k st' = Hit res.
Proof.
  intros Hr. induction fuel as [|fuel IH]; intros st res H; [discriminate|].
  simpl in H.
  destruct (mt r st _) as [x| |] eqn:E; try discriminate.
  - injection H as ->.
    destruct (Hr _ _ _ E) as (st1 & M1 & K1).
    destruct (length (rest st1) =? length (rest st)).
    + exists st1. split; [|exact K1].
      eapply M_StarS; [exact M1|apply M_Star0].
    + destruct (IH _ _ K1) as (st' & M' & K').
      exists st'. split; [|exact K']. eapply M_StarS; eassumption.
  - exists st. split; [apply M_Star0|exact H].
Qed.

Lemma mt_sound (r : regex) : forall st k res,
  mt r st k = Hit res -> exists st', Matches r st st' /\ k st' = Hit res.
Proof.
  induction r as [p| |r1 IH1 r2 IH2|r1 IH1 r2 IH2|r1 IH1|n r1 IH1|];
    intros st k res H; cbn [mt] in H.
  - destruct st as [s cs]. simpl in H. destruct s as [|c s']; [discriminate|].
    destruct (p c) eqn:Ep; [|discriminate].
    eexists. split; [apply M_Chr; exact Ep|exact H].
  - exists st. split; [constructor|exact H].
  - destruct (IH1 _ _ _ H) as (st1 & M1 & K1).
    destruct (IH2 _ _ _ K1) as (st2 & M2 & K2).
    exists st2. split; [econstructor; eassumption|exact K2].
  - destruct (mt r1 st k) as [x| |] eqn:E; try discriminate.
    + destruct (IH1 _ _ _ E) as (st' & M & K). injection H as ->.
      exists st'. split; [apply M_AltL; exact M|exact K].
    + destruct (IH2 _ _ _ H) as (st' & M & K).
      exists st'. split; [apply M_AltR; exact M|exact K].
  - eapply star_loop_sound; eassumption.
  - destruct (IH1 _ _ _ H) as (st1 & M1 & K1).
    eexists. split; [apply M_Group; exact M1|exact K1].
  - destruct (at_end (rest st)) eqn:E; [|discriminate].
    exists st. split; [apply M_End; exact E|exact H].
Qed.

(** A match only moves forward in the text. *)
Lemma Matches_suffix r st st' :
  Matches r st st' -> exists x, rest st = x ++ rest st'.
Proof.
  induction 1; simpl.
  - exists [c]. reflexivity.
  - exists []. reflexivity.
  - destruct IHMatches1 as [x1 E1], IHMatches2 as [x2 E2].
    exists (x1 ++ x2). rewrite E1, E2. apply app_assoc.
  - assumption.
  - assumption.
  - exists []. reflexivity.
  - destruct IHMatches1 as [x1 E1], IHMatches2 as [x2 E2].
    exists (x1 ++ x2). rewrite E1, E2. apply app_assoc.
  - assumption.
  - exists []. reflexivity.
Qed.

Lemma match_here_hit (r : regex) (adv : bool) (s : text) (st : mstate) :
  match_here r adv s = Hit st ->
  exists x, s = x ++ rest st /\
    Matches r (MState (x ++ rest st) []) (MState (rest st) (caps st)) /\
    (adv = true -> x <> []).
Proof.
  unfold match_here. intros H.
  destruct (mt_sound _ _ _ H) as (st' & M & K).
  unfold accept in K.
  destruct (adv && (length (rest st') =? length s)) eqn:A; [discriminate|].
  injection K as ->.
  destruct (Matches_suffix M) as [x Hx]. simpl in Hx.
  exists x. split; [exact Hx|]. split.
  - rewrite <- Hx. destruct st. exact M.
  - intros ->. simpl in A. intros ->. simpl in Hx. subst s.
    rewrite Nat.eqb_refl in A. discriminate.
Qed.

(** [re.search] always answers, and what it finds is a match of the
    pattern in the text. *)
Lemma search_at_returns (r : regex) : forall s adv pos,
  exists o, search_at r adv pos s = Returned o.
Proof.
  induction s as [|c s IH]; intros adv pos; simpl;
    pose proof (@match_here_fuel r adv) as F.
  - specialize (F []). destruct (match_here r adv []); try congruence; eauto.
  - specialize (F (c :: s)).
    destruct (match_here r adv (c :: s)); try congruence; eauto.
Qed.

Lemma search_at_found (r : regex) : forall s adv pos m,
  search_at r adv pos s = Returned (Some m) ->
  exists i, m_start m = pos + i /\ found_in r s i m /\
            (adv = true -> i = 0 -> m_group0 m <> []).
Proof.
  assert (Here : forall s adv pos st m,
    match_here r adv s = Hit st ->
    Returned (Some (RMatch pos (consumed s (rest st)) (caps st) (rest st)))
      = Returned (Some m) ->
    exists i, m_start m = pos + i /\ found_in r s i m /\
              (adv = true -> i = 0 -> m_group0 m <> [])).
  { intros s adv pos st m E H. injection H as <-.
    destruct (match_here_hit _ _ _ E) as (x & Hs & M & A).
    subst s. exists 0. simpl. rewrite consumed_app.
    split; [lia|]. split; [|intros Ha _; exact (A Ha)].
    exists []. simpl. repeat split. exact M. }
  induction s as [|c s IH]; intros adv pos m H; simpl in H.
  - destruct (match_here r adv []) eqn:E; try discriminate. eapply Here; eauto.
  - destruct (match_here r adv (c :: s)) eqn:E; try discriminate.
    + eapply Here; eauto.
    + destruct (IH _ _ _ H) as (i & Hs & (pre & Hp & Hl & M) & _).
      exists (S i). split; [lia|]. split; [|discriminate].
      exists (c :: pre). simpl. rewrite <- Hp, Hl. repeat split. exact M.
Qed.

(** [re.finditer] always answers within its bound. *)
Lemma finditer_from_returns (r : regex) :
  forall (fuel : nat) (adv : bool) (pos : nat) (s : text),
  2 * length s + (if adv then 0 else 1) < fuel ->
  exists ms, finditer_from fuel r adv pos s = Returned ms /\
             Forall (match_of r) ms.
Proof.
  induction fuel as [|fuel IH]; intros adv pos s Hf; [lia|].
  simpl. destruct (search_at_returns r s adv pos) as [o E]. rewrite E. simpl.
  destruct o as [m|]; [|exists []; split; [reflexivity|constructor]].
  destruct (search_at_found _ _ _ _ E) as (i & Hs & (pre & Hp & Hl & M) & A).
  assert (L : length s = length pre + length (m_group0 m) + length (m_rest m)).
  { rewrite Hp at 1. rewrite !length_app. lia. }
  destruct (IH (length (m_group0 m) =? 0) (end_pos m) (m_rest m))
    as (ms & Ems & F).
  { destruct (Nat.eqb_spec (length (m_group0 m)) 0) as [Z|Z].
    - destruct adv.
      + destruct i as [|i].
        * exfalso. apply (A eq_refl eq_refl).
          destruct (m_group0 m); [reflexivity|discriminate].
        * lia.
      + lia.
    - lia. }
  rewrite Ems. simpl. exists (m :: ms). split; [reflexivity|].
  constructor; [exact M|exact F].
Qed.

Lemma finditer_returns (r : regex) (s : text) :
  exists ms, finditer r s = Returned ms /\ Forall (match_of r) ms.
Proof. apply finditer_from_returns. lia. Qed.

(** ** Reading matches of the building blocks *)

Ltac inv H := inversion H; subst; clear H.

Lemma Matches_Lit (l : text) : forall st st',
  Matches (Lit l) st st' -> rest st = l ++ rest st' /\ caps st' = caps st.
Proof.
  induction l as [|c l IH]; intros st st' M.
  - inv M. split; reflexivity.
  - change (Lit (c :: l)) with (Seq (Chr (Ascii.eqb c)) (Lit l)) in M.
    inv M.
    match goal with H : Matches (Chr _) _ _ |- _ => inv H end.
    match goal with H : Ascii.eqb _ _ = true |- _ => apply Ascii.eqb_eq in H; subst end.
    match goal with H : Matches (Lit _) _ _ |- _ => destruct (IH _ _ H) as [E1 E2] end.
    simpl in *. rewrite E1. split; auto.
Qed.

Lemma Matches_Star_Chr (p : ascii -> bool) (st st' : mstate) :
  Matches (Star (Chr p)) st st' ->
  exists run, forallb p run = true /\ rest st = run ++ rest st' /\
              caps st' = caps st.
Proof.
  intros M. remember (Star (Chr p)) as r eqn:Er.
  induction M; try discriminate.
  - exists []. repeat split.
  - injection Er as ->. inv M1.
    destruct (IHM2 eq_refl) as (run & F & E & C). simpl in *.
    exists (c :: run). simpl.
    match goal with H : p c = true |- _ => rewrite H end.
    rewrite F, E. repeat split. exact C.
Qed.

Lemma Matches_Plus_Chr (p : ascii -> bool) (st st' : mstate) :
  Matches (Plus (Chr p)) st st' ->
  exists run, run <> [] /\ forallb p run = true /\
              rest st = run ++ rest st' /\ caps st' = caps st.
Proof.
  intros M. unfold Plus in M. inv M.
  match goal with H : Matches (Chr _) _ _ |- _ => inv H end.
  match goal with H : Matches (Star _) _ _ |- _ =>
    destruct (Matches_Star_Chr H) as (run & F & E & C) end.
  simpl in *. exists (c :: run). simpl.
  match goal with H : p c = true |- _ => rewrite H end.
  rewrite F, E. repeat split; [discriminate|exact C].
Qed.

(** A capturing group around a run of digits records the run. *)
Lemma Matches_Group_digits (n : nat) (st st' : mstate) :
  Matches (Group n (Plus digit)) st st' ->
  exists ds, digits ds /\ rest st = ds ++ rest st' /\
             caps st' = (n, ds) :: caps st.
Proof.
  intros M. inv M.
  match goal with H : Matches (Plus _) _ _ |- _ =>
    destruct (Matches_Plus_Chr H) as (ds & Hne & F & E & C) end.
  exists ds. simpl. rewrite E, consumed_app, C. repeat split; assumption.
Qed.

(** ** The refusal of [int] *)

Lemma int_digits_cases (ds : text) :
  digits ds ->
  int (Some ds) = if length ds <=? int_max_str_digits
                  then Returned (decimal ds)
                  else Raised (int_limit_error (length ds)).
Proof.
  intros [Hne Hd]. unfold int. destruct ds as [|c ds]; [congruence|].
  rewrite Hd. reflexivity.
Qed.

Lemma int_digits (ds : text) :
  digits ds -> length ds <= int_max_str_digits ->
  int (Some ds) = Returned (decimal ds).
Proof.
  intros D L. rewrite (int_digits_cases D).
  destruct (Nat.leb_spec (length ds) int_max_str_digits); [reflexivity|lia].
Qed.

Lemma int_benign (ds : text) : digits ds -> benign (int (Some ds)).
Proof.
  intros D. rewrite (int_digits_cases D).
  destruct (Nat.leb_spec (length ds) int_max_str_digits); simpl; eauto.
Qed.

Lemma benign_bind {A B} (o : outcome A) (f : A -> outcome B) :
  benign o -> (forall a, o = Returned a -> benign (f a)) -> benign (obind o f).
Proof. destruct o; simpl; auto. Qed.

Lemma part_refl (s : text) : part s s.
Proof. exists [], []. simpl. rewrite app_nil_r. reflexivity. Qed.

Lemma part_inside (x s pre post : text) : part x s -> part x (pre ++ s ++ post).
Proof.
  intros (a & b & ->). exists (pre ++ a), (b ++ post).
  rewrite <- !app_assoc. reflexivity.
Qed.

Lemma part_left (x s post : text) : part x s -> part x (s ++ post).
Proof. intros H. apply (part_inside [] post) in H. exact H. Qed.

Lemma part_right (x s pre : text) : part x s -> part x (pre ++ s).
Proof.
  intros H. apply (part_inside pre []) in H. rewrite app_nil_r in H. exact H.
Qed.

Lemma short_part (x s : text) : short s -> part x s -> short x.
Proof.
  intros S (pre & post & ->) ds P. apply S.
  apply part_inside. exact P.
Qed.

Lemma int_short (s ds : text) :
  short s -> part ds s -> digits ds -> int (Some ds) = Returned (decimal ds).
Proof. intros S P D. apply int_digits; [exact D|]. apply (S ds P), D. Qed.

Lemma runs_within_digits (limit : nat) : forall ds run post,
  run <= limit -> forallb isdigit ds = true ->
  runs_within limit run (ds ++ post) = true -> run + length ds <= limit.
Proof.
  induction ds as [|c ds IH]; intros run post Hr Hd H;
    cbn [runs_within forallb length app] in *; [lia|].
  apply andb_true_iff in Hd. destruct Hd as [Hc Hd]. rewrite Hc in H.
  apply andb_true_iff in H. destruct H as [H1 H2].
  apply Nat.leb_le in H1. specialize (IH (S run) post H1 Hd H2). lia.
Qed.

Lemma runs_within_skip (limit : nat) : forall pre run s,
  run <= limit -> runs_within limit run (pre ++ s) = true ->
  exists run', run' <= limit /\ runs_within limit run' s = true.
Proof.
  induction pre as [|c pre IH]; intros run s Hr H;
    cbn [runs_within app] in *; [eauto|].
  destruct (isdigit c).
  - apply andb_true_iff in H. destruct H as [H1 H2]. apply Nat.leb_le in H1.
    exact (IH _ _ H1 H2).
  - apply (IH 0 s); [lia|exact H].
Qed.

(** The computed test is the stated one. *)
Lemma short_numbers_short (s : text) : short_numbers s = true -> short s.
Proof.
  unfold short_numbers. intros H ds (pre & post & ->) Hd.
  destruct (@runs_within_skip int_max_str_digits pre 0 _ (Nat.le_0_l _) H)
    as (run & Hr & H').
  pose proof (@runs_within_digits int_max_str_digits ds run post Hr Hd H').
  lia.
Qed.

(** ** The groups of the rules *)

Ltac seqs :=
  repeat match goal with
  | H : Matches (Seq _ _) _ _ |- _ => inv H
  end.

Lemma lookup_head (n : nat) (t : text) (cs : list (nat * text)) :
  lookup n ((n, t) :: cs) = Some t.
Proof. simpl. rewrite Nat.eqb_refl. reflexivity. Qed.

(** The end of the box rule: two groups of digits between two literal
    texts. *)
Lemma range_shape (l1 l2 : text) (st st' : mstate) :
  Matches (Lit l1 +++ Group 2 (Plus digit) +++ Lit l2
           +++ Group 3 (Plus digit)) st st' ->
  exists d2 d3, digits d2 /\ digits d3 /\
    caps st' = (3, d3) :: (2, d2) :: caps st /\
    rest st = l1 ++ d2 ++ l2 ++ d3 ++ rest st'.
Proof.
  intros M. inv M.
  match goal with H : Matches (Lit _) _ _ |- _ =>
    apply Matches_Lit in H; destruct H as [E1 C1] end.
  match goal with H : Matches (Seq _ _) _ _ |- _ => inv H end.
  match goal with H : Matches (Group _ _) _ _ |- _ =>
    apply Matches_Group_digits in H; destruct H as (d2 & D2 & E2 & C2) end.
  match goal with H : Matches (Seq _ _) _ _ |- _ => inv H end.
  match goal with H : Matches (Lit _) _ _ |- _ =>
    apply Matches_Lit in H; destruct H as [E3 C3] end.
  match goal with H : Matches (Group _ _) _ _ |- _ =>
    apply Matches_Group_digits in H; destruct H as (d3 & D3 & E4 & C4) end.
  exists d2, d3. rewrite C4, C3, C2, C1, E1, E2, E3, E4. auto.
Qed.

(** The groups of the box rule, whatever its first group holds. *)
Lemma box_shape (g : regex) (l1 l2 : text) (st st' : mstate) :
  Matches (Group 1 g +++ Lit l1 +++ Group 2 (Plus digit) +++ Lit l2
           +++ Group 3 (Plus digit)) st st' ->
  exists t d2 d3 cs, digits d2 /\ digits d3 /\
    caps st' = (3, d3) :: (2, d2) :: (1, t) :: cs /\
    part d2 (rest st) /\ part d3 (rest st).
Proof.
  intros M. inv M.
  match goal with H : Matches (Group 1 _) _ _ |- _ =>
    destruct (Matches_suffix H) as [x Ex]; inv H end.
  match goal with H : Matches (Seq _ _) _ _ |- _ =>
    apply range_shape in H; destruct H as (d2 & d3 & D2 & D3 & C & E) end.
  simpl in *. eexists _, d2, d3, _.
  split; [exact D2|]. split; [exact D3|]. split; [rewrite C; reflexivity|].
  rewrite Ex, E. split.
  - exists (x ++ l1), (l2 ++ d3 ++ rest st'). rewrite <- !app_assoc. reflexivity.
  - exists (x ++ l1 ++ d2 ++ l2), (rest st'). rewrite <- !app_assoc. reflexivity.
Qed.

Lemma seq_step (r1 r2 : regex) (st st' : mstate) :
  Matches (r1 +++ r2) st st' ->
  exists s1 x, rest st = x ++ rest s1 /\ Matches r2 s1 st'.
Proof.
  intros M. inv M.
  match goal with H : Matches r1 _ _ |- _ =>
    destruct (Matches_suffix H) as [x Ex] end.
  eauto.
Qed.

(** A rule that ends in a group of digits records them last, and they
    stand in the text matched. *)
Lemma line_shape (n : nat) (a b c d e : regex) (st st' : mstate) :
  Matches (a +++ b +++ c +++ d +++ e +++ Group n (Plus digit)) st st' ->
  exists ds cs, digits ds /\ caps st' = (n, ds) :: cs /\ part ds (rest st).
Proof.
  intros M.
  apply seq_step in M. destruct M as (s1 & x1 & E1 & M).
  apply seq_step in M. destruct M as (s2 & x2 & E2 & M).
  apply seq_step in M. destruct M as (s3 & x3 & E3 & M).
  apply seq_step in M. destruct M as (s4 & x4 & E4 & M).
  apply seq_step in M. destruct M as (s5 & x5 & E5 & M).
  apply Matches_Group_digits in M. destruct M as (ds & D & E & C).
  exists ds, (caps s5). split; [exact D|]. split; [exact C|].
  exists (x1 ++ x2 ++ x3 ++ x4 ++ x5), (rest st').
  rewrite E1, E2, E3, E4, E5, E, <- !app_assoc. reflexivity.
Qed.

(** ** What the extractors do on a match of their rule *)

Lemma box_extract_cases (m : rmatch) :
  match_of box_pattern m ->
  exists g d2 d3, digits d2 /\ digits d3 /\
    part d2 (match_text m) /\ part d3 (match_text m) /\
    box_extract m = (a <- int (Some d2) ;; b <- int (Some d3) ;;
                     Returned (Diag g (Range a b))).
Proof.
  unfold match_of, box_pattern. intros M.
  apply box_shape in M.
  destruct M as (t & d2 & d3 & cs & D2 & D3 & C & P2 & P3).
  simpl in C, P2, P3. exists t, d2, d3. repeat (split; [assumption|]).
  unfold box_extract, group. rewrite C.
  change (lookup 1 ((3, d3) :: (2, d2) :: (1, t) :: cs)) with (Some t).
  change (lookup 2 ((3, d3) :: (2, d2) :: (1, t) :: cs)) with (Some d2).
  change (lookup 3 ((3, d3) :: (2, d2) :: (1, t) :: cs)) with (Some d3).
  reflexivity.
Qed.

Lemma latex_line_extract_cases (m : rmatch) :
  match_of latex_line_pattern m ->
  exists ds, digits ds /\ part ds (match_text m) /\
    latex_line_extract m
    = (n <- int (Some ds) ;;
       Returned (Diag (T "LaTeX Warning: " ++ fmt (group m 1)) (Single n))).
Proof.
  unfold match_of, latex_line_pattern. intros M.
  apply line_shape in M. destruct M as (ds & cs & D & C & P).
  simpl in C, P. exists ds. split; [exact D|]. split; [exact P|].
  unfold latex_line_extract, group at 1. rewrite C, lookup_head. reflexivity.
Qed.

Lemma package_line_extract_cases (m : rmatch) :
  match_of package_line_pattern m ->
  exists ds, digits ds /\ part ds (match_text m) /\
    package_line_extract m
    = (n <- int (Some ds) ;;
       Returned (Diag (T "Package " ++ fmt (group m 1) ++ T " Warning: "
                       ++ fmt (group m 2)) (Single n))).
Proof.
  unfold match_of, package_line_pattern. intros M.
  apply seq_step in M. destruct M as (s1 & x1 & E1 & M).
  apply seq_step in M. destruct M as (s2 & x2 & E2 & M).
  apply line_shape in M. destruct M as (ds & cs & D & C & P).
  simpl in C, E1. exists ds. split; [exact D|]. split.
  - unfold match_text. rewrite E1, E2. apply part_right, part_right. exact P.
  - unfold package_line_extract, group at 1. rewrite C, lookup_head.
    reflexivity.
Qed.

Lemma warning_patterns_benign : Forall rule_benign warning_patterns.
Proof.
  unfold warning_patterns. repeat constructor; intros m Hm; simpl in *.
  - destruct (box_extract_cases Hm) as (g & d2 & d3 & D2 & D3 & _ & _ & ->).
    apply benign_bind; [exact (int_benign D2)|]. intros a _.
    apply benign_bind; [exact (int_benign D3)|]. intros b _. exact I.
  - destruct (latex_line_extract_cases Hm) as (ds & D & _ & ->).
    apply benign_bind; [exact (int_benign D)|]. intros n _. exact I.
  - destruct (package_line_extract_cases Hm) as (ds & D & _ & ->).
    apply benign_bind; [exact (int_benign D)|]. intros n _. exact I.
Qed.

Lemma warning_patterns_short : Forall rule_short warning_patterns.
Proof.
  unfold warning_patterns. repeat constructor; intros m Hm S; simpl in *.
  - destruct (box_extract_cases Hm) as (g & d2 & d3 & D2 & D3 & P2 & P3 & ->).
    rewrite (int_short S P2 D2), (int_short S P3 D3). simpl. eauto.
  - destruct (latex_line_extract_cases Hm) as (ds & D & P & ->).
    rewrite (int_short S P D). simpl. eauto.
  - destruct (package_line_extract_cases Hm) as (ds & D & P & ->).
    rewrite (int_short S P D). simpl. eauto.
  - unfold other_extract. eauto.
Qed.

(** ** The duplicate check *)

Lemma text_eqb_eq (a b : text) : text_eqb a b = true <-> a = b.
Proof.
  unfold text_eqb. destruct (list_eq_dec ascii_dec a b); split; congruence.
Qed.

Lemma lineref_eqb_eq (a b : lineref) : lineref_eqb a b = true <-> a = b.
Proof.
  destruct a, b; simpl; split; intros H; try congruence; try discriminate.
  - apply N.eqb_eq in H. congruence.
  - injection H as ->. apply N.eqb_refl.
  - apply andb_true_iff in H. destruct H as [H1 H2].
    apply N.eqb_eq in H1, H2. congruence.
  - injection H as -> ->. rewrite !N.eqb_refl. reflexivity.
Qed.

Lemma diag_eqb_eq (a b : diag) : diag_eqb a b = true <-> a = b.
Proof.
  unfold diag_eqb. rewrite andb_true_iff, text_eqb_eq, lineref_eqb_eq.
  destruct a, b; simpl. split; [intros [-> ->]; reflexivity|].
  intros H. injection H as -> ->. split; reflexivity.
Qed.

Lemma contains_In (ws : list diag) (w : diag) :
  contains ws w = true <-> In w ws.
Proof.
  unfold contains. rewrite existsb_exists. split.
  - intros (x & Hin & E). apply diag_eqb_eq in E. subst. exact Hin.
  - intros Hin. exists w. split; [exact Hin|]. apply diag_eqb_eq. reflexivity.
Qed.

Lemma contains_same (a b : list diag) (w : diag) :
  (forall x, In x a <-> In x b) -> contains a w = contains b w.
Proof.
  intros H. destruct (contains a w) eqn:A, (contains b w) eqn:B; try reflexivity.
  - apply contains_In, H, contains_In in A. congruence.
  - apply contains_In, H, contains_In in B. congruence.
Qed.

(** The loops of lines 167-172 fold [add_new] over the candidates. *)
Lemma add_matches_fold (f : rmatch -> outcome diag) : forall ms acc cs,
  extract_all f ms = Returned cs ->
  add_matches f ms acc = Returned (fold_left add_new cs acc).
Proof.
  induction ms as [|m ms IH]; intros acc cs H; simpl in *.
  - injection H as <-. reflexivity.
  - destruct (f m) as [c| |]; try discriminate. simpl in *.
    destruct (extract_all f ms) as [cs'| |]; try discriminate. simpl in H.
    injection H as <-. simpl. apply IH. reflexivity.
Qed.

Lemma add_patterns_fold : forall ps output acc cs,
  candidates_of ps output = Returned cs ->
  add_patterns ps output acc = Returned (fold_left add_new cs acc).
Proof.
  induction ps as [|[pattern f] ps IH]; intros output acc cs H; simpl in *.
  - injection H as <-. reflexivity.
  - destruct (finditer pattern output) as [ms| |]; try discriminate. simpl in *.
    destruct (extract_all f ms) as [here| |] eqn:E; try discriminate. simpl in H.
    destruct (candidates_of ps output) as [later| |] eqn:L; try discriminate.
    simpl in H. injection H as <-.
    rewrite (add_matches_fold f ms acc E). simpl.
    rewrite fold_left_app. apply IH. exact L.
Qed.

(** Checking against the accepted records or against all earlier
    candidates is the same, since both hold the same records. *)
Lemma fold_first_occurrences : forall cs acc earlier,
  (forall x, In x acc <-> In x earlier) ->
  fold_left add_new cs acc = acc ++ first_occurrences earlier cs.
Proof.
  induction cs as [|c cs IH]; intros acc earlier Same; simpl.
  - symmetry. apply app_nil_r.
  - unfold add_new at 2. rewrite <- (contains_same acc earlier c Same).
    destruct (contains acc c) eqn:C.
    + simpl. apply IH. intros x. rewrite in_app_iff, <- Same. simpl.
      apply contains_In in C. split; [tauto|]. intros [H|[<-|[]]]; assumption.
    + rewrite (IH (acc ++ [c]) (earlier ++ [c])).
      * rewrite <- app_assoc. reflexivity.
      * intros x. rewrite !in_app_iff, Same. tauto.
Qed.

Lemma first_occurrences_NoDup : forall cs acc earlier,
  (forall x, In x acc <-> In x earlier) -> NoDup acc ->
  NoDup (acc ++ first_occurrences earlier cs).
Proof.
  induction cs as [|c cs IH]; intros acc earlier Same ND; simpl.
  - rewrite app_nil_r. exact ND.
  - rewrite <- (contains_same acc earlier c Same). destruct (contains acc c) eqn:C.
    + simpl. apply IH; [|exact ND]. intros x. rewrite in_app_iff, <- Same.
      simpl. apply contains_In in C. split; [tauto|].
      intros [H|[<-|[]]]; assumption.
    + rewrite app_assoc. apply IH.
      * intros x. rewrite !in_app_iff, Same. tauto.
      * apply NoDup_app; [exact ND|repeat constructor; intros []|].
        intros x Hx [<-|[]]. apply contains_In in Hx. congruence.
Qed.

Lemma first_occurrences_In : forall cs earlier x,
  In x (first_occurrences earlier cs) <-> In x cs /\ ~ In x earlier.
Proof.
  induction cs as [|c cs IH]; intros earlier x; simpl; [tauto|].
  rewrite in_app_iff, IH, in_app_iff. simpl.
  destruct (contains earlier c) eqn:C.
  - apply contains_In in C. simpl. split.
    + intros [[]|[H1 H2]]. tauto.
    + intros [[<-|H1] H2]; [tauto|]. right. split; [exact H1|].
      intros [H|[<-|[]]]; tauto.
  - assert (N : ~ In c earlier) by (rewrite <- contains_In; congruence).
    simpl. split.
    + intros [[<-|[]]|[H1 H2]]; tauto.
    + intros [[<-|H1] H2]; [tauto|].
      destruct (diag_eqb c x) eqn:E.
      * apply diag_eqb_eq in E. tauto.
      * right. split; [exact H1|]. intros [H|[<-|[]]]; [tauto|].
        rewrite (proj2 (diag_eqb_eq c c) eq_refl) in E. discriminate.
Qed.

(** ** Where the matches lie in the text *)

Lemma finditer_from_located (r : regex) :
  forall (fuel : nat) (adv : bool) (pos : nat) (s : text) (ms : list rmatch),
  finditer_from fuel r adv pos s = Returned ms ->
  Forall (fun m => match_of r m /\
                   exists pre, s = pre ++ m_group0 m ++ m_rest m) ms.
Proof.
  induction fuel as [|fuel IH]; intros adv pos s ms H; [discriminate|].
  cbn [finditer_from] in H.
  destruct (search_at r adv pos s) as [[m|]| |] eqn:S; try discriminate;
    cbn [obind] in H.
  - destruct (finditer_from fuel r _ _ _) as [ms'| |] eqn:F; try discriminate.
    cbn [obind] in H. injection H as <-.
    destruct (search_at_found _ _ _ _ S) as (i & _ & (pre & Hp & _ & M) & _).
    constructor; [split; [exact M|eauto]|].
    specialize (IH _ _ _ _ F). rewrite Forall_forall in *.
    intros m' Hm'. destruct (IH _ Hm') as (M' & pre' & Hp').
    split; [exact M'|]. exists (pre ++ m_group0 m ++ pre').
    rewrite Hp, Hp' at 1. rewrite <- !app_assoc. reflexivity.
  - injection H as <-. constructor.
Qed.

(** The two loops, whatever the outcome of the extractors. *)
Lemma add_matches_eq (f : rmatch -> outcome diag) : forall ms acc,
  add_matches f ms acc
  = (cs <- extract_all f ms ;; Returned (fold_left add_new cs acc)).
Proof.
  induction ms as [|m ms IH]; intros acc; simpl; [reflexivity|].
  destruct (f m) as [c| |]; simpl; try reflexivity.
  rewrite IH. destruct (extract_all f ms); reflexivity.
Qed.

Lemma add_patterns_eq : forall ps output acc,
  add_patterns ps output acc
  = (cs <- candidates_of ps output ;; Returned (fold_left add_new cs acc)).
Proof.
  induction ps as [|[pattern f] ps IH]; intros output acc; simpl;
    [reflexivity|].
  destruct (finditer pattern output) as [ms| |]; simpl; try reflexivity.
  rewrite add_matches_eq.
  destruct (extract_all f ms) as [here| |]; simpl; try reflexivity.
  rewrite IH.
  destruct (candidates_of ps output) as [later| |]; simpl; try reflexivity.
  rewrite fold_left_app. reflexivity.
Qed.

Lemma scan_warnings_eq (output : text) :
  scan_warnings output
  = (cs <- candidates output ;; Returned (first_occurrences [] cs)).
Proof.
  unfold scan_warnings, candidates. rewrite add_patterns_eq.
  destruct (candidates_of warning_patterns output) as [cs| |]; simpl;
    try reflexivity.
  rewrite (fold_first_occurrences cs [] []); [reflexivity|tauto].
Qed.

(** ** Every rule scans every text *)

Lemma extract_all_benign (f : rmatch -> outcome diag) (r : regex) :
  (forall m, match_of r m -> benign (f m)) ->
  forall ms, Forall (match_of r) ms -> benign (extract_all f ms).
Proof.
  intros Hf. induction 1 as [|m ms Hm _ IH]; simpl; [exact I|].
  apply benign_bind; [exact (Hf m Hm)|]. intros c _.
  apply benign_bind; [exact IH|]. intros cs _. exact I.
Qed.

Lemma extract_all_short (f : rmatch -> outcome diag) (r : regex) :
  (forall m, match_of r m -> short (match_text m) ->
     exists d, f m = Returned d) ->
  forall ms, Forall (fun m => match_of r m /\ short (match_text m)) ms ->
    exists cs, extract_all f ms = Returned cs.
Proof.
  intros Hf. induction 1 as [|m ms [Hm Hs] _ IH]; simpl.
  - eauto.
  - destruct (Hf m Hm Hs) as [d ->]. destruct IH as [cs ->]. simpl. eauto.
Qed.

Lemma finditer_short (r : regex) (output : text) (ms : list rmatch) :
  short output -> finditer r output = Returned ms ->
  Forall (fun m => match_of r m /\ short (match_text m)) ms.
Proof.
  intros S F. apply finditer_from_located in F.
  rewrite Forall_forall in *. intros m Hm.
  destruct (F m Hm) as (M & pre & Hp). split; [exact M|].
  apply (short_part S). exists pre, []. rewrite app_nil_r. exact Hp.
Qed.

Lemma candidates_of_benign (output : text) : forall ps,
  Forall rule_benign ps -> benign (candidates_of ps output).
Proof.
  induction 1 as [|[r f] ps Hr _ IH]; simpl; [exact I|].
  destruct (finditer_returns r output) as (ms & -> & F). simpl.
  apply benign_bind; [exact (extract_all_benign f Hr F)|]. intros here _.
  apply benign_bind; [exact IH|]. intros later _. exact I.
Qed.

Lemma candidates_of_short (output : text) : short output -> forall ps,
  Forall rule_short ps -> exists cs, candidates_of ps output = Returned cs.
Proof.
  intros S. induction 1 as [|[r f] ps Hr _ IH]; simpl.
  - eauto.
  - destruct (finditer_returns r output) as (ms & E & _). rewrite E. simpl.
    destruct (extract_all_short f Hr (@finditer_short r output ms S E))
      as [here ->].
    simpl. destruct IH as [later ->]. simpl. eauto.
Qed.

Lemma candidates_benign (output : text) : benign (candidates output).
Proof. apply candidates_of_benign, warning_patterns_benign. Qed.

Lemma candidates_short (output : text) :
  short output -> exists cs, candidates output = Returned cs.
Proof. intros S. apply (candidates_of_short S), warning_patterns_short. Qed.

(** ** The chunk pattern *)

Lemma take_drop_while (p : ascii -> bool) (s : text) :
  take_while p s ++ drop_while p s = s.
Proof.
  induction s as [|c s IH]; simpl; [reflexivity|].
  destruct (p c); simpl; [rewrite IH|]; reflexivity.
Qed.

Lemma drop_while_length (p : ascii -> bool) (s : text) :
  length (drop_while p s) <= length s.
Proof.
  induction s as [|c s IH]; simpl; [lia|]. destruct (p c); simpl; lia.
Qed.

Lemma take_while_drop_while (p : ascii -> bool) (s : text) :
  take_while p (drop_while p s) = [].
Proof.
  induction s as [|c s IH]; simpl; [reflexivity|].
  destruct (p c) eqn:E; [exact IH|]. simpl. rewrite E. reflexivity.
Qed.

Lemma firstn_take_while (p : ascii -> bool) (s : text) :
  firstn (length (take_while p s)) s = take_while p s.
Proof.
  induction s as [|c s IH]; simpl; [reflexivity|].
  destruct (p c); simpl; [rewrite IH|]; reflexivity.
Qed.

(** The loop [(?:[^!]|$)*] runs to the next marker or to the end. *)
Lemma chunk_loop (k : mstate -> mres) (cs : list (nat * text)) (res : mstate) :
  forall s fuel, length s < fuel ->
  k (MState (drop_while notbang s) cs) = Hit res ->
  star_loop (mt (Alt (Not "!") EndAnchor)) k fuel (MState s cs) = Hit res.
Proof.
  induction s as [|c s IH]; intros fuel Hf Hk; (destruct fuel as [|fuel]; [simpl in Hf; lia|]).
  - simpl in *. rewrite Hk. reflexivity.
  - cbn [star_loop mt Not rest caps]. simpl in Hk.
    unfold notbang in Hk. destruct (Ascii.eqb c "!") eqn:E; simpl in Hk |- *.
    + destruct s; simpl; [|exact Hk].
      apply Ascii.eqb_eq in E. subst c. simpl. exact Hk.
    + replace (length s =? S (length s)) with false
        by (symmetry; apply Nat.eqb_neq; lia).
      rewrite IH; [reflexivity| simpl in Hf; lia | exact Hk].
Qed.

Lemma consumed_run (p : ascii -> bool) (c : ascii) (s : text) :
  consumed (c :: s) (drop_while p s) = c :: take_while p s.
Proof.
  transitivity (consumed ((c :: take_while p s) ++ drop_while p s)
                  (drop_while p s)).
  - simpl app. rewrite take_drop_while. reflexivity.
  - apply consumed_app.
Qed.

Lemma chunk_here_hit (adv : bool) (s : text) :
  match_here chunk_pattern adv ("!"%char :: s)
  = Hit (MState (drop_while notbang s)
           [(1, "!"%char :: take_while notbang s)]).
Proof.
  unfold match_here, chunk_pattern.
  cbn [mt Lit T list_ascii_of_string fold_right rest caps].
  change (Ascii.eqb "!" "!") with true. cbv iota.
  apply chunk_loop; [simpl; lia|].
  cbn [rest caps]. unfold accept. cbn [rest].
  replace (length (drop_while notbang s) =? length ("!"%char :: s)) with false.
  - rewrite andb_false_r, consumed_run. reflexivity.
  - symmetry. apply Nat.eqb_neq. pose proof (drop_while_length notbang s).
    simpl. lia.
Qed.

Lemma chunk_here_miss (adv : bool) (s : text) :
  match s with c :: _ => notbang c = true | [] => True end ->
  match_here chunk_pattern adv s = Miss.
Proof.
  unfold match_here, chunk_pattern.
  cbn [mt Lit T list_ascii_of_string fold_right rest caps].
  destruct s as [|c s]; [reflexivity|]. unfold notbang. intros H.
  rewrite Ascii.eqb_sym. destruct (Ascii.eqb c "!"); [discriminate|reflexivity].
Qed.

(** [re.search] with the chunk pattern finds the first marker. *)
Lemma chunk_search : forall s adv pos,
  search_at chunk_pattern adv pos s
  = Returned
      match drop_while notbang s with
      | [] => None
      | c :: s' =>
          Some (RMatch (pos + length (take_while notbang s))
                  (c :: take_while notbang s')
                  [(1, c :: take_while notbang s')]
                  (drop_while notbang s'))
      end.
Proof.
  induction s as [|c s IH]; intros adv pos.
  - cbn [search_at]. rewrite chunk_here_miss by exact I. reflexivity.
  - cbn [search_at drop_while take_while]. unfold notbang at 1 3.
    destruct (Ascii.eqb c "!") eqn:E; cbn [negb].
    + apply Ascii.eqb_eq in E. subst c. rewrite chunk_here_hit.
      cbn [rest caps length]. rewrite Nat.add_0_r, consumed_run. reflexivity.
    + rewrite chunk_here_miss by (unfold notbang; rewrite E; reflexivity).
      rewrite IH. cbn [length]. rewrite Nat.add_succ_comm. reflexivity.
Qed.

Lemma cut_head (s : text) : fst (cut s) = take_while notbang s.
Proof.
  induction s as [|c s IH]; simpl; [reflexivity|].
  destruct (cut s) as [head chunks]. simpl in IH. unfold notbang.
  destruct (Ascii.eqb c "!"); simpl; [reflexivity|rewrite IH; reflexivity].
Qed.

Lemma cut_drop (s : text) : snd (cut (drop_while notbang s)) = snd (cut s).
Proof.
  induction s as [|c s IH]; [reflexivity|].
  cbn [drop_while]. unfold notbang at 1.
  destruct (Ascii.eqb c "!") eqn:E; cbn [negb]; [reflexivity|].
  rewrite IH. simpl. rewrite E. destruct (cut s). reflexivity.
Qed.

Lemma cut_chunks (s : text) :
  snd (cut s) =
  match drop_while notbang s with
  | [] => []
  | c :: s' => (c :: take_while notbang s') :: snd (cut (drop_while notbang s'))
  end.
Proof.
  induction s as [|c s IH]; [reflexivity|].
  cbn [drop_while]. unfold notbang at 1.
  destruct (Ascii.eqb c "!") eqn:E; cbn [negb].
  - rewrite cut_drop, <- cut_head. simpl. rewrite E.
    destruct (cut s). reflexivity.
  - rewrite <- IH. simpl. rewrite E. destruct (cut s). reflexivity.
Qed.

(** [re.split] with the chunk pattern gives the cut of the text. *)
Lemma chunk_split_from : forall fuel s adv pos,
  length s < fuel ->
  split_from fuel chunk_pattern adv pos s
  = Returned (pieces_of (fst (cut s)) (snd (cut s))).
Proof.
  induction fuel as [|fuel IH]; intros s adv pos Hf; [lia|].
  cbn [split_from]. rewrite chunk_search. cbn [obind].
  rewrite cut_head, cut_chunks.
  destruct (drop_while notbang s) as [|c s'] eqn:D.
  - unfold pieces_of. simpl.
    pose proof (take_drop_while notbang s) as TD. rewrite D, app_nil_r in TD.
    rewrite TD. reflexivity.
  - cbn [m_group0 m_rest m_start end_pos].
    rewrite IH.
    + cbn [obind]. unfold pieces_of. cbn [flat_map app].
      rewrite cut_head, take_while_drop_while.
      replace (pos + length (take_while notbang s) - pos)
        with (length (take_while notbang s)) by lia.
      rewrite firstn_take_while. reflexivity.
    + pose proof (drop_while_length notbang s) as L1.
      pose proof (drop_while_length notbang s') as L2.
      rewrite D in L1. simpl in L1. lia.
Qed.

Lemma chunk_split (s : text) :
  split chunk_pattern s = Returned (pieces_of (fst (cut s)) (snd (cut s))).
Proof. apply chunk_split_from. lia. Qed.

(** ** The line pattern *)

(** A greedy loop over a character class runs to the end of the run. *)
Lemma class_loop (p : ascii -> bool) (k : mstate -> mres)
  (cs : list (nat * text)) (res : mstate) :
  forall s fuel, length s < fuel ->
  k (MState (drop_while p s) cs) = Hit res ->
  star_loop (mt (Chr p)) k fuel (MState s cs) = Hit res.
Proof.
  induction s as [|c s IH]; intros fuel Hf Hk; (destruct fuel as [|fuel]; [simpl in Hf; lia|]).
  - simpl in *. exact Hk.
  - cbn [star_loop mt rest caps]. simpl in Hk.
    destruct (p c) eqn:E.
    + replace (length s =? length (c :: s)) with false
        by (symmetry; apply Nat.eqb_neq; simpl; lia).
      rewrite IH; [reflexivity|simpl in Hf; lia|exact Hk].
    + exact Hk.
Qed.

Lemma take_while_all (p : ascii -> bool) (s : text) :
  forallb p (take_while p s) = true.
Proof.
  induction s as [|c s IH]; simpl; [reflexivity|].
  destruct (p c) eqn:E; simpl; [rewrite E, IH|]; reflexivity.
Qed.

Lemma drop_while_head (p : ascii -> bool) (s : text) :
  match drop_while p s with
  | c :: _ => p c = false
  | [] => True
  end.
Proof.
  induction s as [|c s IH]; simpl; [exact I|].
  destruct (p c) eqn:E; [exact IH|exact E].
Qed.

Lemma line_here_hit (adv : bool) (c : ascii) (t : text) :
  isdigit c = true ->
  match_here line_pattern adv ("l"%char :: "."%char :: c :: t)
  = Hit (MState (drop_while isdigit t) [(1, c :: take_while isdigit t)]).
Proof.
  intros D. unfold match_here, line_pattern, Plus, digit.
  cbn [mt Lit T list_ascii_of_string fold_right rest caps].
  change (Ascii.eqb "l" "l") with true. change (Ascii.eqb "." ".") with true.
  cbv iota. rewrite D.
  apply class_loop; [simpl; lia|].
  cbn [rest caps]. unfold accept. cbn [rest].
  replace (length (drop_while isdigit t)
           =? length ("l"%char :: "."%char :: c :: t)) with false.
  - rewrite andb_false_r, consumed_run. reflexivity.
  - symmetry. apply Nat.eqb_neq. pose proof (drop_while_length isdigit t).
    simpl. lia.
Qed.

Lemma line_here_miss (adv : bool) (s : text) :
  marker_here s = false -> match_here line_pattern adv s = Miss.
Proof.
  unfold match_here, line_pattern, Plus, digit.
  cbn [mt Lit T list_ascii_of_string fold_right rest caps].
  destruct s as [|a [|b [|c t]]]; intros H; cbn [rest caps marker_here] in *;
    try reflexivity.
  - destruct (Ascii.eqb "l" a); reflexivity.
  - destruct (Ascii.eqb "l" a), (Ascii.eqb "." b); reflexivity.
  - rewrite (Ascii.eqb_sym a), (Ascii.eqb_sym b) in H.
    destruct (Ascii.eqb "l" a), (Ascii.eqb "." b), (isdigit c);
      try reflexivity; discriminate.
Qed.

Lemma marker_here_shape (s : text) :
  marker_here s = true ->
  exists c t, s = "l"%char :: "."%char :: c :: t /\ isdigit c = true.
Proof.
  destruct s as [|a [|b [|c t]]]; simpl; try discriminate.
  intros H. apply andb_true_iff in H. destruct H as [H Hc].
  apply andb_true_iff in H. destruct H as [Ha Hb].
  apply Ascii.eqb_eq in Ha, Hb. subst. eauto.
Qed.

(** [re.search] with the line pattern finds the first marker and
    records its digits. *)
Lemma line_search : forall s adv pos,
  exists o, search_at line_pattern adv pos s = Returned o /\
    match find_marker s with
    | Some ds => exists m, o = Some m /\ group m 1 = Some ds
    | None => o = None
    end.
Proof.
  induction s as [|a s IH]; intros adv pos.
  - cbn [search_at]. rewrite line_here_miss by reflexivity.
    exists None. split; reflexivity.
  - cbn [search_at find_marker]. destruct (marker_here (a :: s)) eqn:E.
    + destruct (marker_here_shape _ E) as (c & t & Hs & D).
      rewrite Hs. rewrite (line_here_hit adv c t D). eexists. split; [reflexivity|].
      eexists. split; [reflexivity|].
      unfold group. cbn [m_groups caps lookup Nat.eqb skipn take_while].
      rewrite D. reflexivity.
    + rewrite (line_here_miss adv _ E). apply IH.
Qed.

(** ** Markers, declaratively *)

Lemma marker_here_at (s : text) :
  marker_here s = true -> marker_at s 0 (take_while isdigit (skipn 2 s)).
Proof.
  intros H. destruct (marker_here_shape _ H) as (c & t & -> & D).
  cbn [skipn take_while]. rewrite D.
  exists [], (drop_while isdigit t). split; [|split; [reflexivity|split]].
  - simpl. rewrite take_drop_while. reflexivity.
  - split; [discriminate|]. simpl. rewrite D. apply take_while_all.
  - apply (drop_while_head isdigit t).
Qed.

Lemma marker_at_here (s ds : text) : marker_at s 0 ds -> marker_here s = true.
Proof.
  intros (pre & post & Hs & Hl & [Hne Hd] & _).
  destruct pre; [|discriminate]. destruct ds as [|c ds]; [congruence|].
  simpl in Hd. apply andb_true_iff in Hd. destruct Hd as [Hc _].
  subst s. simpl. exact Hc.
Qed.

Lemma marker_at_tail (a : ascii) (s : text) (j : nat) (ds : text) :
  marker_at (a :: s) (S j) ds <-> marker_at s j ds.
Proof.
  split.
  - intros (pre & post & Hs & Hl & D & P).
    destruct pre as [|a' pre]; [discriminate|].
    simpl in Hs, Hl. injection Hs as _ Hs. injection Hl as Hl.
    exists pre, post. auto.
  - intros (pre & post & Hs & Hl & D & P).
    exists (a :: pre), post. simpl. rewrite Hs, Hl. auto.
Qed.

(** [find_marker] gives the digits of the marker at the least offset. *)
Lemma find_marker_first : forall s ds,
  find_marker s = Some ds ->
  exists i, marker_at s i ds /\ forall j ds', marker_at s j ds' -> i <= j.
Proof.
  induction s as [|a s IH]; intros ds H; cbn [find_marker] in H.
  - simpl in H. discriminate.
  - destruct (marker_here (a :: s)) eqn:E.
    + injection H as <-. exists 0. split; [apply marker_here_at; exact E|].
      intros; lia.
    + destruct (IH _ H) as (i & M & Least). exists (S i). split.
      * apply marker_at_tail. exact M.
      * intros [|j] ds' M'.
        -- apply marker_at_here in M'. congruence.
        -- apply marker_at_tail in M'. specialize (Least _ _ M'). lia.
Qed.

Lemma find_marker_none : forall s,
  find_marker s = None -> forall j ds, ~ marker_at s j ds.
Proof.
  induction s as [|a s IH]; intros H j ds M; cbn [find_marker] in H.
  - destruct M as (pre & post & Hs & _). destruct pre; discriminate.
  - destruct (marker_here (a :: s)) eqn:E; [discriminate|].
    destruct j as [|j].
    + apply marker_at_here in M. congruence.
    + apply marker_at_tail in M. exact (IH H _ _ M).
Qed.

Lemma find_marker_digits (s ds : text) : find_marker s = Some ds -> digits ds.
Proof.
  intros H. destruct (find_marker_first _ H) as (i & (pre & post & _ & _ & D & _) & _).
  exact D.
Qed.

(** ** One chunk, one record *)

Lemma split_on_first (s : text) :
  nth_error (split_on nl s) 0 = Some (first_line s).
Proof.
  unfold first_line. induction s as [|c s IH]; simpl; [reflexivity|].
  destruct (Ascii.eqb c nl); simpl; [reflexivity|].
  destruct (split_on nl s) as [|piece pieces]; simpl in *; [discriminate|].
  congruence.
Qed.

Lemma find_marker_part (s ds : text) : find_marker s = Some ds -> part ds s.
Proof.
  intros H.
  destruct (find_marker_first _ H) as (i & (pre & post & E & _) & _).
  exists (pre ++ T "l."), post. rewrite E, <- !app_assoc. reflexivity.
Qed.

(** The loop body, read off the chunk: the line of the record is the
    number of the first marker, converted by [int]. *)
Lemma error_of_chunk_spec (chunk : text) :
  error_of_chunk chunk =
  match find_marker chunk with
  | Some ds =>
      n <- int (Some ds) ;;
      Returned (Diag (strip (first_line chunk)) (Single n))
  | None => Returned (Diag (strip (first_line chunk)) NoLine)
  end.
Proof.
  unfold error_of_chunk, search. rewrite split_on_first.
  destruct (line_search chunk false 0) as (o & -> & Ho). cbn [obind].
  destruct (find_marker chunk) as [ds|] eqn:F.
  - destruct Ho as (m & -> & G). rewrite G. reflexivity.
  - subst o. reflexivity.
Qed.

Lemma error_of_chunk_benign (chunk : text) : benign (error_of_chunk chunk).
Proof.
  rewrite error_of_chunk_spec. destruct (find_marker chunk) as [ds|] eqn:F;
    [|exact I].
  apply benign_bind; [exact (int_benign (find_marker_digits _ F))|].
  intros n _. exact I.
Qed.

Lemma error_of_chunk_short (chunk : text) :
  short chunk -> exists d, error_of_chunk chunk = Returned d.
Proof.
  intros S. rewrite error_of_chunk_spec.
  destruct (find_marker chunk) as [ds|] eqn:F; [|eauto].
  rewrite (int_short S (find_marker_part _ F) (find_marker_digits _ F)).
  simpl. eauto.
Qed.

(** ** The cut of a text *)

Lemma cut_concat (s : text) : s = fst (cut s) ++ concat (snd (cut s)).
Proof.
  induction s as [|c s IH]; simpl; [reflexivity|].
  destruct (cut s) as [head chunks]. simpl in IH.
  destruct (Ascii.eqb c "!"); simpl; rewrite IH at 1; reflexivity.
Qed.

Lemma cut_head_clean (s : text) : ~ In "!"%char (fst (cut s)).
Proof.
  induction s as [|c s IH]; simpl; [tauto|].
  destruct (cut s) as [head chunks]. simpl in IH.
  destruct (Ascii.eqb c "!") eqn:E; simpl; [tauto|].
  intros [->|H]; [|tauto]. rewrite Ascii.eqb_refl in E. discriminate.
Qed.

Lemma cut_chunks_shape (s : text) : Forall is_chunk (snd (cut s)).
Proof.
  induction s as [|c s IH]; simpl; [constructor|].
  pose proof (cut_head_clean s) as Hh.
  destruct (cut s) as [head chunks]. simpl in IH, Hh.
  destruct (Ascii.eqb c "!") eqn:E; simpl; [|exact IH].
  constructor; [|exact IH]. apply Ascii.eqb_eq in E. subst c.
  exists head. split; [reflexivity|exact Hh].
Qed.

Lemma cut_count (s : text) :
  length (snd (cut s)) = count_occ ascii_dec s "!"%char.
Proof.
  induction s as [|c s IH]; simpl; [reflexivity|].
  destruct (cut s) as [head chunks]. simpl in IH.
  destruct (ascii_dec c "!") as [->|N].
  - simpl. rewrite IH. reflexivity.
  - apply Ascii.eqb_neq in N. rewrite N. simpl. exact IH.
Qed.

Lemma chunk_part (s chunk : text) : In chunk (snd (cut s)) -> part chunk s.
Proof.
  intros H. rewrite (cut_concat s) at 1.
  destruct (in_split _ _ H) as (a & b & ->).
  exists (fst (cut s) ++ concat a), (concat b).
  rewrite concat_app. simpl. rewrite <- !app_assoc. reflexivity.
Qed.

(** ** The chunker builds one record for each chunk of the cut *)

Lemma add_chunks_flat : forall chunks acc,
  Forall is_chunk chunks ->
  add_chunks (flat_map (fun c => [Some c; Some []]) chunks) acc
  = (recs <- records_of chunks ;; Returned (acc ++ recs)).
Proof.
  induction chunks as [|c chunks IH]; intros acc Sh; simpl.
  - rewrite app_nil_r. reflexivity.
  - inversion Sh as [|? ? (body & -> & _) Sh']; subst.
    cbn [add_chunks startswith T list_ascii_of_string].
    change (Ascii.eqb "!" "!") with true. cbn [andb].
    destruct (error_of_chunk ("!"%char :: body)) as [d| |]; cbn [obind];
      try reflexivity.
    rewrite (IH _ Sh'). destruct (records_of chunks); cbn [obind];
      try reflexivity.
    rewrite <- app_assoc. reflexivity.
Qed.

Lemma scan_errors_eq (output : text) :
  scan_errors output = records_of (snd (cut output)).
Proof.
  unfold scan_errors. rewrite chunk_split. cbn [obind]. unfold pieces_of.
  cbn [add_chunks].
  assert (H : startswith (fst (cut output)) (T "!") = false).
  { pose proof (cut_head_clean output) as C.
    destruct (fst (cut output)) as [|c head]; [reflexivity|].
    cbn [startswith T list_ascii_of_string]. rewrite andb_true_r.
    apply Ascii.eqb_neq. intros ->. apply C. left. reflexivity. }
  rewrite H, (add_chunks_flat [] (cut_chunks_shape output)).
  destruct (records_of (snd (cut output))); reflexivity.
Qed.

Lemma records_of_Forall2 : forall chunks recs,
  records_of chunks = Returned recs <->
  Forall2 (fun c d => error_of_chunk c = Returned d) chunks recs.
Proof.
  induction chunks as [|c chunks IH]; intros recs; simpl; split; intros H.
  - injection H as <-. constructor.
  - inversion H. reflexivity.
  - destruct (error_of_chunk c) as [d| |] eqn:E; try discriminate.
    cbn [obind] in H.
    destruct (records_of chunks) as [ds| |]; try discriminate.
    cbn [obind] in H. injection H as <-.
    constructor; [exact E|]. apply IH. reflexivity.
  - inversion H as [|? d ? ds E F]; subst. rewrite E. cbn [obind].
    apply IH in F. rewrite F. reflexivity.
Qed.

Lemma records_of_benign (chunks : list text) : benign (records_of chunks).
Proof.
  induction chunks as [|c chunks IH]; simpl; [exact I|].
  apply benign_bind; [apply error_of_chunk_benign|]. intros d _.
  apply benign_bind; [exact IH|]. intros ds _. exact I.
Qed.

Lemma records_of_short (chunks : list text) :
  (forall c, In c chunks -> short c) ->
  exists recs, records_of chunks = Returned recs.
Proof.
  induction chunks as [|c chunks IH]; intros S; simpl; [eauto|].
  destruct (error_of_chunk_short (S c (or_introl eq_refl))) as [d ->].
  destruct IH as [recs ->]; [intros c' H; apply S; right; exact H|].
  simpl. eauto.
Qed.

(** * The parsing phase as a whole *)

Lemma validate_log_eq (output : text) (lf : option text) :
  validate_log output lf
  = (cs <- candidates output ;;
     recs <- records_of (snd (cut output)) ;;
     Returned (make_report (first_occurrences [] cs) recs lf)).
Proof.
  unfold validate_log, parse_log. rewrite scan_warnings_eq, scan_errors_eq.
  destruct (candidates output) as [cs| |]; simpl; try reflexivity.
  destruct (records_of (snd (cut output))); reflexivity.
Qed.

(** What a report is, when there is one. *)
Lemma validate_log_inv (output : text) (lf : option text) (r : report) :
  validate_log output lf = Returned r ->
  exists cs recs,
    candidates output = Returned cs /\
    Forall2 (fun c d => error_of_chunk c = Returned d) (snd (cut output)) recs /\
    r = make_report (first_occurrences [] cs) recs lf.
Proof.
  rewrite validate_log_eq. intros H.
  destruct (candidates output) as [cs| |]; try discriminate. cbn [obind] in H.
  destruct (records_of (snd (cut output))) as [recs| |] eqn:R;
    try discriminate.
  cbn [obind] in H. injection H as <-. exists cs, recs.
  split; [reflexivity|]. split; [apply records_of_Forall2; exact R|reflexivity].
Qed.

(** There is a report whenever the numbers of the text are short. *)
Lemma validate_log_short (output : text) (lf : option text) :
  short_numbers output = true -> exists r, validate_log output lf = Returned r.
Proof.
  intros H. apply short_numbers_short in H. rewrite validate_log_eq.
  destruct (candidates_short H) as [cs ->]. cbn [obind].
  destruct (records_of_short (snd (cut output))) as [recs ->]; [|simpl; eauto].
  intros c Hc. exact (short_part H (@chunk_part output c Hc)).
Qed.

(** The parsing phase fails by the refusal of [int] or not at all, and
    never by a loop bound of the model. *)
Lemma parse_log_benign (output : text) : benign (parse_log output).
Proof.
  unfold parse_log. rewrite scan_warnings_eq, scan_errors_eq.
  apply benign_bind.
  - apply benign_bind; [apply candidates_benign|]. intros cs _. exact I.
  - intros ws _. apply benign_bind; [apply records_of_benign|].
    intros es _. exact I.
Qed.

Lemma parse_log_short (output : text) :
  short_numbers output = true ->
  exists ws es, parse_log output = Returned (ws, es).
Proof.
  intros H. destruct (validate_log_short output None H) as [r E].
  unfold validate_log in E.
  destruct (parse_log output) as [[ws es]| |]; try discriminate. eauto.
Qed.

Lemma no_marker_no_chunk (output : text) :
  ~ In "!"%char output -> snd (cut output) = [].
Proof.
  intros H. apply length_zero_iff_nil. rewrite cut_count.
  apply count_occ_not_In. exact H.
Qed.

(** ** The fallback rule takes every top-level notice *)

Lemma other_here (t : text) :
  exists st, match_here other_pattern false (T "LaTeX Warning: " ++ t) = Hit st.
Proof.
  unfold match_here, other_pattern.
  cbn [mt Lit T list_ascii_of_string fold_right rest caps app Not].
  cbn [Ascii.eqb Bool.eqb].
  match goal with |- context [star_loop ?b _ _ _] =>
    change b with (mt (Not ".")) end.
  unfold Not. erewrite class_loop; [eexists; reflexivity|simpl; lia|].
  unfold accept. cbn [andb]. reflexivity.
Qed.

Lemma search_at_complete (r : regex) : forall pre t pos st,
  match_here r false t = Hit st ->
  exists m, search_at r false pos (pre ++ t) = Returned (Some m).
Proof.
  induction pre as [|c pre IH]; intros t pos st H.
  - destruct t; simpl in *; rewrite H; eauto.
  - cbn [app search_at].
    pose proof (match_here_fuel r false (c :: pre ++ t)) as F.
    destruct (match_here r false (c :: pre ++ t)); [eauto| |congruence].
    eapply IH. exact H.
Qed.

Lemma finditer_first (r : regex) (s : text) (m : rmatch) :
  search r s = Returned (Some m) ->
  exists ms, finditer r s = Returned (m :: ms).
Proof.
  intros H. unfold finditer, search in *.
  replace (2 * length s + 2) with (S (2 * length s + 1)) by lia.
  cbn [finditer_from]. rewrite H. cbn [obind].
  destruct (search_at_found _ _ _ _ H) as (i & _ & (pre & Hp & _ & _) & _).
  assert (L : length s = length pre + length (m_group0 m) + length (m_rest m)).
  { rewrite Hp at 1. rewrite !length_app. lia. }
  destruct (@finditer_from_returns r (2 * length s + 1)
              (length (m_group0 m) =? 0) (end_pos m) (m_rest m))
    as (ms & -> & _).
  { destruct (Nat.eqb_spec (length (m_group0 m)) 0); lia. }
  cbn [obind]. eauto.
Qed.

Lemma extract_all_In (f : rmatch -> outcome diag) (m : rmatch) (d : diag) :
  f m = Returned d ->
  forall ms cs, extract_all f ms = Returned cs -> In m ms -> In d cs.
Proof.
  intros Hf. induction ms as [|m' ms IH]; intros cs E Hin; [destruct Hin|].
  cbn [extract_all] in E.
  destruct (f m') as [d'| |] eqn:E1; try discriminate. cbn [obind] in E.
  destruct (extract_all f ms) as [cs'| |]; try discriminate. cbn [obind] in E.
  injection E as <-. destruct Hin as [->|Hin].
  - left. congruence.
  - right. eapply IH; [reflexivity|exact Hin].
Qed.

Lemma candidates_of_In (output : text) (r : regex)
  (f : rmatch -> outcome diag) (m : rmatch) (ms : list rmatch) (d : diag) :
  finditer r output = Returned ms -> In m ms -> f m = Returned d ->
  forall ps cs, In (r, f) ps -> candidates_of ps output = Returned cs ->
  In d cs.
Proof.
  intros F Hm Hf. induction ps as [|[r' f'] ps IH]; intros cs Hin C;
    [destruct Hin|].
  cbn [candidates_of] in C.
  destruct (finditer r' output) as [ms'| |] eqn:F'; try discriminate.
  cbn [obind] in C.
  destruct (extract_all f' ms') as [here| |] eqn:E; try discriminate.
  cbn [obind] in C.
  destruct (candidates_of ps output) as [later| |]; try discriminate.
  cbn [obind] in C. injection C as <-. apply in_app_iff.
  destruct Hin as [Heq|Hin].
  - injection Heq as -> ->. left. rewrite F in F'. injection F' as <-.
    eapply extract_all_In; eassumption.
  - right. eapply IH; [exact Hin|reflexivity].
Qed.

Lemma drop_while_run (p : ascii -> bool) (run : text) (c : ascii) (s : text) :
  forallb p run = true -> p c = false -> drop_while p (run ++ c :: s) = c :: s.
Proof.
  intros Hr Hc. induction run as [|a run IH]; simpl in *.
  - rewrite Hc. reflexivity.
  - apply andb_true_iff in Hr. destruct Hr as [Ha Hr]. rewrite Ha. auto.
Qed.

(** The fallback rule also takes every notice of a package. *)
Lemma other_here_package (name t : text) :
  name <> [] -> forallb (fun c => negb (isspace c)) name = true ->
  exists st,
    match_here other_pattern false
      (T "Package " ++ name ++ T " Warning: " ++ t) = Hit st.
Proof.
  intros Hne Hall. destruct name as [|a name]; [congruence|].
  simpl in Hall. apply andb_true_iff in Hall. destruct Hall as [Ha Hall].
  unfold match_here, other_pattern, Plus, nonspace.
  cbn [mt Lit T list_ascii_of_string fold_right rest caps app Not].
  cbn [Ascii.eqb Bool.eqb]. rewrite Ha.
  match goal with |- context [star_loop ?b _ _ _] =>
    change b with (mt (Chr (fun c => negb (isspace c)))) end.
  erewrite class_loop; [eexists; reflexivity|rewrite !length_app; simpl; lia|].
  cbn [app].
  rewrite (@drop_while_run (fun c => negb (isspace c)) name " "%char _ Hall eq_refl).
  cbn [mt rest caps]. cbn [Ascii.eqb Bool.eqb].
  match goal with |- context [star_loop ?b _ _ _] =>
    change b with (mt (Chr (fun x => negb (Ascii.eqb x ".")))) end.
  erewrite class_loop; [reflexivity|simpl; lia|].
  unfold accept. cbn [andb]. reflexivity.
Qed.

(** Where the fallback rule matches, there is a candidate without a
    line. *)
Lemma candidates_other (pre t : text) (st : mstate) (cs : list diag) :
  match_here other_pattern false t = Hit st ->
  candidates (pre ++ t) = Returned cs ->
  exists msg, In (Diag msg NoLine) cs.
Proof.
  intros H C.
  destruct (search_at_complete other_pattern pre _ 0 H) as [m S].
  destruct (finditer_first _ _ S) as [ms F].
  exists (m_group0 m).
  eapply (@candidates_of_In _ other_pattern other_extract m (m :: ms));
    [exact F|left; reflexivity|reflexivity| |exact C].
  unfold warning_patterns. simpl. tauto.
Qed.

(** Whenever a top-level notice stands in the text, the warnings of the
    report hold a record without a line. *)
Lemma notice_gives_lineless_record (pre t : text) (lf : option text)
  (r : report) :
  validate_log (pre ++ T "LaTeX Warning: " ++ t) lf = Returned r ->
  exists msg, In (Diag msg NoLine) (warnings r).
Proof.
  intros E. destruct (validate_log_inv _ _ E) as (cs & recs & C & _ & ->).
  destruct (other_here t) as [st H].
  destruct (candidates_other pre _ H C) as [msg Hin].
  exists msg. cbn [warnings make_report].
  apply first_occurrences_In. split; [exact Hin|intros []].
Qed.

(** ** The box rule never reports a message with an opening parenthesis *)

Lemma box_shape_clean (u o b l1 l2 : text) (st st' : mstate) :
  Matches (Group 1 (Alt (Lit u) (Lit o) +++ Lit b +++ Star (Not "("))
           +++ Lit l1 +++ Group 2 (Plus digit) +++ Lit l2
           +++ Group 3 (Plus digit)) st st' ->
  exists t d2 d3 cs run,
    caps st' = (3, d3) :: (2, d2) :: (1, t) :: cs /\
    (t = u ++ b ++ run \/ t = o ++ b ++ run) /\
    forallb (fun x => negb (Ascii.eqb x "(")) run = true.
Proof.
  intros M. inv M. seqs.
  repeat match goal with
  | H : Matches (Lit _) _ _ |- _ => apply Matches_Lit in H; destruct H as [_ ?]
  | H : Matches (Group _ (Plus digit)) _ _ |- _ =>
      apply Matches_Group_digits in H; destruct H as (? & _ & _ & ?)
  end.
  match goal with H : Matches (Group 1 _) _ _ |- _ => inv H end.
  seqs.
  match goal with H : Matches (Star _) _ _ |- _ =>
    apply Matches_Star_Chr in H; destruct H as (run & Hrun & Erun & _) end.
  match goal with H : Matches (Alt _ _) _ _ |- _ => inv H end;
  repeat match goal with
  | H : Matches (Lit _) _ _ |- _ => apply Matches_Lit in H; destruct H as [? _]
  end;
  simpl in *;
  repeat match goal with H : caps _ = _ |- _ => rewrite H; clear H end;
  repeat match goal with H : rest _ = _ |- _ => rewrite H; clear H end;
  rewrite !app_assoc, consumed_app, <- !app_assoc;
  eauto 12.
Qed.

Lemma box_message_clean (m : rmatch) (w : diag) :
  match_of box_pattern m -> box_extract m = Returned w ->
  ~ In "("%char (message w).
Proof.
  unfold match_of, box_pattern. intros M E.
  apply box_shape_clean in M.
  destruct M as (t & d2 & d3 & cs & run & C & Ht & Hrun).
  simpl in C. unfold box_extract, group in E. rewrite C in E.
  change (lookup 1 ((3, d3) :: (2, d2) :: (1, t) :: cs)) with (Some t) in E.
  destruct (int (lookup 2 _)) as [a| |]; try discriminate. cbn [obind] in E.
  destruct (int (lookup 3 _)) as [b| |]; try discriminate. cbn [obind] in E.
  injection E as <-. cbn [message]. intros Hin.
  assert (Hr : ~ In "("%char run).
  { intros Hr. rewrite forallb_forall in Hrun. specialize (Hrun _ Hr).
    rewrite Ascii.eqb_refl in Hrun. discriminate. }
  destruct Ht as [-> | ->]; rewrite !in_app_iff in Hin;
    destruct Hin as [Hin|[Hin|Hin]]; try (exact (Hr Hin));
    vm_compute in Hin; repeat (destruct Hin as [Hin|Hin]; [discriminate|]);
    exact Hin.
Qed.

Lemma extract_all_inv (f : rmatch -> outcome diag) : forall ms cs,
  extract_all f ms = Returned cs ->
  forall d, In d cs -> exists m, In m ms /\ f m = Returned d.
Proof.
  induction ms as [|m ms IH]; intros cs E d Hin; cbn [extract_all] in E.
  - injection E as <-. destruct Hin.
  - destruct (f m) as [d'| |] eqn:E1; try discriminate. cbn [obind] in E.
    destruct (extract_all f ms) as [cs'| |]; try discriminate. cbn [obind] in E.
    injection E as <-. destruct Hin as [<-|Hin].
    + exists m. split; [left; reflexivity|exact E1].
    + destruct (IH _ eq_refl _ Hin) as (m' & Hm & Hf). exists m'.
      split; [right; exact Hm|exact Hf].
Qed.

Lemma candidates_of_inv (output : text) : forall ps cs,
  candidates_of ps output = Returned cs ->
  forall d, In d cs ->
  exists r f m, In (r, f) ps /\ match_of r m /\ f m = Returned d.
Proof.
  induction ps as [|[r f] ps IH]; intros cs C d Hin; cbn [candidates_of] in C.
  - injection C as <-. destruct Hin.
  - destruct (finditer_returns r output) as (ms & F & Fm). rewrite F in C.
    cbn [obind] in C.
    destruct (extract_all f ms) as [here| |] eqn:E; try discriminate.
    cbn [obind] in C.
    destruct (candidates_of ps output) as [later| |]; try discriminate.
    cbn [obind] in C. injection C as <-. apply in_app_iff in Hin.
    destruct Hin as [Hin|Hin].
    + destruct (extract_all_inv _ _ E _ Hin) as (m & Hm & Hf).
      exists r, f, m. split; [left; reflexivity|]. split; [|exact Hf].
      rewrite Forall_forall in Fm. apply Fm. exact Hm.
    + destruct (IH _ eq_refl _ Hin) as (r' & f' & m & Hp & Hm & Hf).
      exists r', f', m. split; [right; exact Hp|]. split; assumption.
Qed.

(** A warning with a line range comes from the box rule, and its message
    holds no opening parenthesis. *)
Lemma range_warning_clean (output : text) (lf : option text) (r : report)
  (w : diag) (a b : N) :
  validate_log output lf = Returned r -> In w (warnings r) ->
  lines w = Range a b -> ~ In "("%char (message w).
Proof.
  intros E Hin Hl.
  destruct (validate_log_inv _ _ E) as (cs & recs & C & _ & ->).
  cbn [warnings make_report] in Hin.
  apply first_occurrences_In in Hin. destruct Hin as [Hin _].
  destruct (candidates_of_inv _ _ C _ Hin) as (p & f & m & Hp & Hm & Hf).
  unfold warning_patterns in Hp. simpl in Hp.
  destruct Hp as [Hp|[Hp|[Hp|[Hp|[]]]]]; injection Hp as <- <-.
  - exact (box_message_clean Hm Hf).
  - unfold latex_line_extract in Hf.
    destruct (int (group m 3)); try discriminate. cbn [obind] in Hf.
    injection Hf as <-. discriminate.
  - unfold package_line_extract in Hf.
    destruct (int (group m 4)); try discriminate. cbn [obind] in Hf.
    injection Hf as <-. discriminate.
  - unfold other_extract in Hf. injection Hf as <-. discriminate.
Qed.

(** ** The order of the warnings *)

Lemma first_occurrences_app : forall a b earlier,
  first_occurrences earlier (a ++ b)
  = first_occurrences earlier a ++ first_occurrences (earlier ++ a) b.
Proof.
  induction a as [|c a IH]; intros b earlier; simpl.
  - rewrite app_nil_r. reflexivity.
  - rewrite IH, <- !app_assoc. reflexivity.
Qed.

Lemma first_occurrences_Forall (P : diag -> Prop) (cs earlier : list diag) :
  Forall P cs -> Forall P (first_occurrences earlier cs).
Proof.
  rewrite !Forall_forall. intros H x Hx. apply H.
  apply first_occurrences_In in Hx. tauto.
Qed.

Lemma extract_all_Forall (f : rmatch -> outcome diag) (P : diag -> Prop) :
  (forall m d, f m = Returned d -> P d) ->
  forall ms cs, extract_all f ms = Returned cs -> Forall P cs.
Proof.
  intros Hf ms cs E. apply Forall_forall. intros d Hd.
  destruct (extract_all_inv _ _ E _ Hd) as (m & _ & Hm). eapply Hf. exact Hm.
Qed.

Lemma box_extract_range (m : rmatch) (d : diag) :
  box_extract m = Returned d -> is_range d.
Proof.
  unfold box_extract. destruct (group m 1); [|discriminate].
  destruct (int (group m 2)); try discriminate. cbn [obind].
  destruct (int (group m 3)); try discriminate. cbn [obind].
  intros H. injection H as <-. red. simpl. eauto.
Qed.

Lemma latex_line_extract_single (m : rmatch) (d : diag) :
  latex_line_extract m = Returned d -> is_single d.
Proof.
  unfold latex_line_extract. destruct (int (group m 3)); try discriminate.
  cbn [obind]. intros H. injection H as <-. red. simpl. eauto.
Qed.

Lemma package_line_extract_single (m : rmatch) (d : diag) :
  package_line_extract m = Returned d -> is_single d.
Proof.
  unfold package_line_extract. destruct (int (group m 4)); try discriminate.
  cbn [obind]. intros H. injection H as <-. red. simpl. eauto.
Qed.

Lemma other_extract_bare (m : rmatch) (d : diag) :
  other_extract m = Returned d -> is_bare d.
Proof. unfold other_extract. intros H. injection H as <-. reflexivity. Qed.

(** The candidates rule by rule. *)
Lemma candidates_by_rule (output : text) (cs : list diag) :
  candidates output = Returned cs ->
  exists boxes lined other,
    cs = boxes ++ lined ++ other /\
    Forall is_range boxes /\ Forall is_single lined /\ Forall is_bare other.
Proof.
  unfold candidates, warning_patterns. cbn [candidates_of].
  destruct (finditer box_pattern output) as [m1| |]; try discriminate.
  cbn [obind].
  destruct (extract_all box_extract m1) as [c1| |] eqn:E1; try discriminate.
  cbn [obind].
  destruct (finditer latex_line_pattern output) as [m2| |]; try discriminate.
  cbn [obind].
  destruct (extract_all latex_line_extract m2) as [c2| |] eqn:E2;
    try discriminate.
  cbn [obind].
  destruct (finditer package_line_pattern output) as [m3| |]; try discriminate.
  cbn [obind].
  destruct (extract_all package_line_extract m3) as [c3| |] eqn:E3;
    try discriminate.
  cbn [obind].
  destruct (finditer other_pattern output) as [m4| |]; try discriminate.
  cbn [obind].
  destruct (extract_all other_extract m4) as [c4| |] eqn:E4; try discriminate.
  cbn [obind]. intros H. injection H as <-. exists c1, (c2 ++ c3), c4.
  rewrite app_nil_r, <- !app_assoc. split; [reflexivity|].
  split; [exact (@extract_all_Forall _ _ box_extract_range _ _ E1)|].
  split; [|exact (@extract_all_Forall _ _ other_extract_bare _ _ E4)].
  apply Forall_app. split.
  - exact (@extract_all_Forall _ _ latex_line_extract_single _ _ E2).
  - exact (@extract_all_Forall _ _ package_line_extract_single _ _ E3).
Qed.

Lemma candidates_of_located (output : text) : forall ps cs,
  candidates_of ps output = Returned cs ->
  forall d, In d cs ->
  exists r f m pre,
    In (r, f) ps /\ match_of r m /\
    output = pre ++ m_group0 m ++ m_rest m /\ f m = Returned d.
Proof.
  induction ps as [|[r f] ps IH]; intros cs C d Hin; cbn [candidates_of] in C.
  - injection C as <-. destruct Hin.
  - destruct (finditer r output) as [ms| |] eqn:F; try discriminate.
    cbn [obind] in C.
    destruct (extract_all f ms) as [here| |] eqn:E; try discriminate.
    cbn [obind] in C.
    destruct (candidates_of ps output) as [later| |]; try discriminate.
    cbn [obind] in C. injection C as <-. apply in_app_iff in Hin.
    destruct Hin as [Hin|Hin].
    + destruct (extract_all_inv _ _ E _ Hin) as (m & Hm & Hf).
      pose proof (finditer_from_located _ _ _ _ _ F) as L.
      rewrite Forall_forall in L. destruct (L _ Hm) as (M & pre & Hp).
      exists r, f, m, pre. split; [left; reflexivity|]. auto.
    + destruct (IH _ eq_refl _ Hin) as (r' & f' & m & pre & Hp & Hm).
      exists r', f', m, pre. split; [right; exact Hp|exact Hm].
Qed.

(** ** The literal parts of a match *)

Lemma Matches_Lit_front (a : text) (r : regex) (st st' : mstate) :
  Matches (Lit a +++ r) st st' -> exists y, rest st = a ++ y.
Proof.
  intros M. inv M.
  match goal with H : Matches (Lit _) _ _ |- _ =>
    apply Matches_Lit in H; destruct H as [E _] end.
  eauto.
Qed.

Lemma Matches_Lit_second (g : regex) (a : text) (r : regex) (st st' : mstate) :
  Matches (g +++ Lit a +++ r) st st' -> exists x y, rest st = x ++ a ++ y.
Proof.
  intros M. inv M.
  match goal with H : Matches g _ _ |- _ =>
    destruct (Matches_suffix H) as [x Ex] end.
  match goal with H : Matches (Seq _ _) _ _ |- _ =>
    apply Matches_Lit_front in H; destruct H as [y Ey] end.
  exists x, y. rewrite Ex, Ey. reflexivity.
Qed.

Lemma Matches_package_front (a b : text) (n : nat) (r : regex)
  (st st' : mstate) :
  Matches (Lit a +++ Group n (Plus nonspace) +++ Lit b +++ r) st st' ->
  exists name y, name <> [] /\
    forallb (fun c => negb (isspace c)) name = true /\
    rest st = a ++ name ++ b ++ y.
Proof.
  intros M. inv M.
  match goal with H : Matches (Lit _) _ _ |- _ =>
    apply Matches_Lit in H; destruct H as [Ea _] end.
  match goal with H : Matches (Seq _ _) _ _ |- _ => inv H end.
  match goal with H : Matches (Group _ _) _ _ |- _ => inv H end.
  match goal with H : Matches (Plus _) _ _ |- _ =>
    apply Matches_Plus_Chr in H; destruct H as (name & Hne & Hall & En & _) end.
  match goal with H : Matches (Seq _ _) _ _ |- _ =>
    apply Matches_Lit_front in H; destruct H as [y Ey] end.
  simpl in *. exists name, y. rewrite Ea, En, Ey. auto.
Qed.

Lemma startswith_app (l post : text) : startswith (l ++ post) l = true.
Proof.
  induction l as [|c l IH]; simpl; [reflexivity|].
  rewrite Ascii.eqb_refl, IH. reflexivity.
Qed.

Lemma text_in_app (l pre post : text) : text_in l (pre ++ l ++ post) = true.
Proof.
  induction pre as [|c pre IH].
  - assert (U : forall h, startswith h l = true -> text_in l h = true).
    { intros h H. destruct h; simpl; rewrite H; reflexivity. }
    change ([] ++ l ++ post) with (l ++ post). apply U. apply startswith_app.
  - simpl. rewrite IH. apply orb_true_r.
Qed.

(** * Further properties of the parsing phase *)

Lemma lstrip_split (s : text) :
  exists z, s = z ++ lstrip s /\ forallb isspace z = true /\
    match lstrip s with
    | c :: _ => isspace c = false
    | [] => True
    end.
Proof.
  induction s as [|c s (z & E & Z & H)]; simpl.
  - exists []. auto.
  - destruct (isspace c) eqn:C.
    + exists (c :: z). simpl. rewrite C, Z, <- E. auto.
    + exists []. simpl. auto.
Qed.

Lemma rstrip_split (s : text) :
  exists z, s = rstrip s ++ z /\ forallb isspace z = true /\
    match rev (rstrip s) with
    | c :: _ => isspace c = false
    | [] => True
    end.
Proof.
  unfold rstrip. destruct (lstrip_split (rev s)) as (z & E & Z & H).
  exists (rev z). rewrite rev_involutive. split; [|split; [|exact H]].
  - rewrite <- rev_app_distr, <- E, rev_involutive. reflexivity.
  - rewrite forallb_forall in *. intros x Hx. apply Z. apply in_rev. exact Hx.
Qed.

Lemma first_line_split (s : text) :
  exists z, s = first_line s ++ z /\ ~ In nl (first_line s).
Proof.
  unfold first_line. exists (drop_while (fun c => negb (Ascii.eqb c nl)) s).
  split; [symmetry; apply take_drop_while|].
  intros H. pose proof (take_while_all (fun c => negb (Ascii.eqb c nl)) s) as A.
  rewrite forallb_forall in A. specialize (A _ H).
  rewrite Ascii.eqb_refl in A. discriminate.
Qed.

(** The message of a chunk's record: it starts with the marker, is a
    prefix of the chunk, and has neither a newline nor white space at its
    end. *)
Lemma chunk_message (body : text) :
  exists t z,
    strip (first_line ("!"%char :: body)) = "!"%char :: t /\
    "!"%char :: body = ("!"%char :: t) ++ z /\
    ~ In nl ("!"%char :: t) /\
    isspace (last ("!"%char :: t) "!"%char) = false.
Proof.
  destruct (first_line_split ("!"%char :: body)) as (z1 & E1 & N1).
  assert (F : exists f, first_line ("!"%char :: body) = "!"%char :: f).
  { unfold first_line. simpl. eauto. }
  destruct F as [f F]. rewrite F in *.
  unfold strip. change (lstrip ("!"%char :: f)) with ("!"%char :: f).
  destruct (rstrip_split ("!"%char :: f)) as (z2 & E2 & Z2 & H2).
  destruct (rstrip ("!"%char :: f)) as [|c t] eqn:R.
  - simpl in E2. subst z2. simpl in Z2. discriminate.
  - simpl in E2. injection E2 as <- E2.
    exists t, (z2 ++ z1). split; [reflexivity|]. split; [|split].
    + rewrite E1. simpl. rewrite E2, <- app_assoc. reflexivity.
    + intros Hin. apply N1. change ("!"%char :: f) with (["!"%char] ++ f).
      rewrite E2. simpl in *. destruct Hin as [Hin|Hin]; [left; exact Hin|].
      right. apply in_or_app. left. exact Hin.
    + assert (L : forall (l : text) d, l <> [] ->
                match rev l with c :: _ => isspace c = false | [] => True end ->
                isspace (last l d) = false).
      { intros l d Hl Hr. destruct (exists_last Hl) as (l' & a & ->).
        rewrite last_last. rewrite rev_app_distr in Hr. exact Hr. }
      apply L; [discriminate|exact H2].
Qed.

Lemma error_of_chunk_message (chunk : text) (d : diag) :
  error_of_chunk chunk = Returned d -> message d = strip (first_line chunk).
Proof.
  rewrite error_of_chunk_spec. intros H.
  destruct (find_marker chunk) as [ds|];
    [destruct (int (Some ds)); try discriminate; cbn [obind] in H|];
    injection H as <-; reflexivity.
Qed.

Lemma records_messages : forall chunks recs,
  Forall2 (fun c d => error_of_chunk c = Returned d) chunks recs ->
  Forall is_chunk chunks ->
  Forall (fun d =>
            (exists t, message d = "!"%char :: t) /\
            ~ In nl (message d) /\
            isspace (last (message d) "!"%char) = false) recs.
Proof.
  induction 1 as [|c d chunks recs Hd _ IH]; intros Sh; [constructor|].
  inversion Sh as [|? ? (body & -> & _) Sh']; subst.
  constructor; [|exact (IH Sh')].
  rewrite (error_of_chunk_message _ Hd).
  destruct (chunk_message body) as (t & z & -> & _ & N & L). eauto.
Qed.

(** ** The numerals of [str] *)

Lemma uint_text_digits (d : Decimal.uint) :
  forallb isdigit (T (NilEmpty.string_of_uint d)) = true.
Proof. induction d; simpl; auto. Qed.

Lemma uint_text_value (d : Decimal.uint) : forall acc,
  fold_left (fun a c => (10 * a + digit_value c)%N)
    (T (NilEmpty.string_of_uint d)) (N.of_nat acc)
  = N.of_nat (Nat.of_uint_acc d acc).
Proof.
  induction d; intros acc; cbn [NilEmpty.string_of_uint T list_ascii_of_string
    fold_left Nat.of_uint_acc]; [reflexivity|..];
    rewrite <- IHd, Nat.tail_mul_spec; f_equal;
    match goal with |- context [digit_value ?c] =>
      let v := eval vm_compute in (digit_value c) in
      change (digit_value c) with v end; lia.
Qed.

Lemma nzhead_head (d : Decimal.uint) :
  match Decimal.nzhead d with
  | Decimal.D0 _ => False
  | _ => True
  end.
Proof. induction d; simpl; auto. Qed.

(** [str] of a length is its decimal numeral. *)
Lemma str_of_nat_numeral (n : nat) : numeral (str_of_nat n) n.
Proof.
  unfold numeral, str_of_nat.
  pose proof (DecimalNat.Unsigned.to_of (Nat.to_uint n)) as U.
  rewrite DecimalNat.Unsigned.of_to in U.
  pose proof (DecimalNat.Unsigned.of_to n) as V. unfold Nat.of_uint in V.
  pose proof (uint_text_value (Nat.to_uint n) 0) as E. rewrite V in E.
  pose proof (uint_text_digits (Nat.to_uint n)) as D.
  pose proof (nzhead_head (Nat.to_uint n)) as Z.
  unfold Decimal.unorm in U.
  destruct (Nat.to_uint n) as [|d|d|d|d|d|d|d|d|d|d] eqn:Q;
    [cbv in U; discriminate|..];
    try (split; [split; [discriminate|exact D]|];
         split; [exact E|]; right; eexists; eexists; split;
         [reflexivity|discriminate]).
  assert (d = Decimal.Nil) as ->.
  { destruct (Decimal.nzhead (Decimal.D0 d)) eqn:Hn; try (destruct Z);
      try discriminate.
    injection U as <-. reflexivity. }
  split; [split; [discriminate|reflexivity]|]. split; [exact E|].
  left. reflexivity.
Qed.

(** ** The first line of a chunk, stripped *)

Lemma first_line_is : forall s, is_first_line s (first_line s).
Proof.
  unfold is_first_line, first_line.
  induction s as [|c s [N IH]]; simpl; [split; [tauto|left; reflexivity]|].
  destruct (Ascii.eqb c nl) eqn:E; simpl.
  - apply Ascii.eqb_eq in E. subst c. split; [tauto|]. right. eauto.
  - apply Ascii.eqb_neq in E. split; [intros [H|H]; [congruence|tauto]|].
    destruct IH as [IH|[rest IH]]; [left|right; exists rest]; congruence.
Qed.

Lemma strip_trimmed (s : text) : trimmed s (strip s).
Proof.
  unfold trimmed, strip.
  destruct (lstrip_split s) as (lead & E1 & Z1 & H1).
  destruct (rstrip_split (lstrip s)) as (trail & E2 & Z2 & H2).
  exists lead, trail. split; [rewrite <- E2; exact E1|].
  split; [exact Z1|]. split; [exact Z2|]. split; [|exact H2].
  destruct (rstrip (lstrip s)) as [|c m]; [exact I|].
  rewrite E2 in H1. exact H1.
Qed.

(** ** The marker at an offset is one *)

Lemma run_unique (p : ascii -> bool) : forall ds ds' post post',
  forallb p ds = true -> forallb p ds' = true ->
  match post with c :: _ => p c = false | [] => True end ->
  match post' with c :: _ => p c = false | [] => True end ->
  ds ++ post = ds' ++ post' -> ds = ds'.
Proof.
  induction ds as [|c ds IH]; intros [|c' ds'] post post' D D' P P' E;
    simpl in *.
  - reflexivity.
  - subst post. apply andb_true_iff in D'. destruct D' as [D' _]. congruence.
  - subst post'. apply andb_true_iff in D. destruct D as [D _]. congruence.
  - injection E as -> E. f_equal. apply andb_true_iff in D, D'.
    apply (IH ds' post post'); tauto.
Qed.

Lemma app_same_length {A} : forall (pre pre' x x' : list A),
  length pre = length pre' -> pre ++ x = pre' ++ x' -> x = x'.
Proof.
  induction pre as [|a pre IH]; intros [|a' pre'] x x' L E; simpl in *;
    try discriminate; [exact E|].
  injection E as _ E. injection L as L. exact (IH _ _ _ L E).
Qed.

Lemma marker_at_unique (s : text) (i : nat) (ds ds' : text) :
  marker_at s i ds -> marker_at s i ds' -> ds = ds'.
Proof.
  intros (pre & post & E & L & [_ D] & P) (pre' & post' & E' & L' & [_ D'] & P').
  rewrite E in E'. apply app_same_length in E'; [|congruence].
  apply app_inv_head in E'. exact (@run_unique isdigit ds ds' post post' D D' P P' E').
Qed.

(** The outcome of the loop body, from the first marker of the chunk. *)
Lemma error_of_chunk_first_marker (chunk : text) (i : nat) (ds : text) :
  marker_at chunk i ds ->
  (forall j ds', marker_at chunk j ds' -> i <= j) ->
  error_of_chunk chunk
  = if length ds <=? int_max_str_digits
    then Returned (Diag (strip (first_line chunk)) (Single (decimal ds)))
    else Raised (int_limit_error (length ds)).
Proof.
  intros M Least. rewrite error_of_chunk_spec.
  destruct (find_marker chunk) as [ds'|] eqn:F.
  - destruct (find_marker_first _ F) as (i' & M' & Least').
    assert (i' = i) as ->.
    { specialize (Least _ _ M'). specialize (Least' _ _ M). lia. }
    rewrite (marker_at_unique M' M).
    assert (D : digits ds) by (destruct M as (? & ? & _ & _ & D & _); exact D).
    rewrite (int_digits_cases D).
    destruct (length ds <=? int_max_str_digits); reflexivity.
  - destruct (@find_marker_none chunk F i ds M).
Qed.

(** * The claims *)

(** C1 (the code departs from the claim).  On scenario A the box rule
    finds nothing: its first group may not cross an opening parenthesis,
    and the size clause [(12.34pt too wide)] stands between the box name
    and the range clause.  The report has no warning at all, where the
    claim, and the example in the docstring of [validate_tex], expect one
    with lines 15 and 16.  Without the clause the rule does match.  No
    log text at all gives a warning with a line range and a parenthesis
    in its message. *)
Theorem C1_size_clause_blocks_box_rule :
  (forall lf, validate_log scenarioA lf = Returned (make_report [] [] lf)) /\
  (forall lf, validate_log box_plain lf
     = Returned (make_report [Diag (T "Overfull \hbox") (Range 15 16)] [] lf)) /\
  (forall output lf r w a b,
     validate_log output lf = Returned r -> In w (warnings r) ->
     lines w = Range a b -> ~ In "("%char (message w)).
Proof.
  split; [|split].
  - intros lf. vm_compute. reflexivity.
  - intros lf. vm_compute. reflexivity.
  - intros output lf r w a b. apply range_warning_clean.
Qed.

(** C2, as stated, fails: the notice repeated on two lines does not give
    exactly one warning record. *)
Lemma C2_counterexample :
  ~ (exists r, validate_log scenarioD None = Returned r /\
       warnings r = [Diag (T "LaTeX Warning: X") (Single 5)]).
Proof.
  intros (r & E & Hw). vm_compute in E. injection E as <-.
  vm_compute in Hw. discriminate.
Qed.

(** C2, amended.  For the text holding the line
    [LaTeX Warning: X on line 5.] twice there are exactly two warning
    records: the two matches of the rule with a line collapse into one
    record with message [LaTeX Warning: X] and line 5, and the two
    matches of the fallback rule into one record with message
    [LaTeX Warning: X on line 5] and no line; exactly one record has
    line 5.  The second record is no accident of this text: whenever a
    top-level notice stands in a log text, every report of that text
    holds a record without a line; and there is a report whenever no
    number of the text is longer than the limit of [int]. *)
Theorem C2_repeated_notice_two_records :
  (forall lf,
     validate_log scenarioD lf
     = Returned (make_report
                   [Diag (T "LaTeX Warning: X") (Single 5);
                    Diag (T "LaTeX Warning: X on line 5") NoLine] [] lf)) /\
  (forall pre t lf r,
     validate_log (pre ++ T "LaTeX Warning: " ++ t) lf = Returned r ->
     exists msg, In (Diag msg NoLine) (warnings r)) /\
  (forall pre t lf,
     short_numbers (pre ++ T "LaTeX Warning: " ++ t) = true ->
     exists r msg,
       validate_log (pre ++ T "LaTeX Warning: " ++ t) lf = Returned r /\
       In (Diag msg NoLine) (warnings r)).
Proof.
  split; [|split].
  - intros lf. vm_compute. reflexivity.
  - apply notice_gives_lineless_record.
  - intros pre t lf S. destruct (validate_log_short _ lf S) as [r E].
    destruct (notice_gives_lineless_record _ _ _ E) as [msg H]. eauto.
Qed.

Lemma C2_repeated_notice_two_records_witness :
  short_numbers ([nl] ++ T "LaTeX Warning: " ++ T "Y") = true /\
  exists r msg,
    validate_log ([nl] ++ T "LaTeX Warning: " ++ T "Y") None = Returned r /\
    In (Diag msg NoLine) (warnings r).
Proof.
  split; [reflexivity|].
  exact (proj2 (proj2 C2_repeated_notice_two_records) [nl] (T "Y") None
           eq_refl).
Defined.

(** C3, as stated, fails: no line of [a!b] begins with the marker, yet
    there is an error record and success is false. *)
Lemma C3_counterexample :
  line_starts_with_marker inner_marker = false /\
  exists r, validate_log inner_marker None = Returned r /\
            errors r = [Diag (T "!b") NoLine] /\ success r = false.
Proof. split; [reflexivity|]. eexists. split; [vm_compute; reflexivity|]. split; reflexivity. Qed.

(** C3, amended.  For every log text with no marker character [!] at
    all, every report has an empty errors list and success true,
    whatever warnings the text holds: error chunks start at the marker
    characters of the text, wherever they stand in their lines.  There
    is a report whenever no number of the text is longer than the limit
    of [int]. *)
Theorem C3_no_marker_no_error (output : text) (lf : option text) :
  ~ In "!"%char output ->
  (forall r, validate_log output lf = Returned r ->
     errors r = [] /\ success r = true) /\
  (short_numbers output = true ->
   exists r, validate_log output lf = Returned r /\
             errors r = [] /\ success r = true).
Proof.
  intros H.
  assert (P : forall r, validate_log output lf = Returned r ->
                errors r = [] /\ success r = true).
  { intros r E. destruct (validate_log_inv _ _ E) as (cs & recs & _ & F & ->).
    rewrite (no_marker_no_chunk output H) in F. inversion F; subst.
    split; reflexivity. }
  split; [exact P|]. intros S.
  destruct (validate_log_short output lf S) as [r E]. eauto.
Qed.

Lemma C3_no_marker_no_error_witness :
  ~ In "!"%char scenarioA /\
  (forall r, validate_log scenarioA None = Returned r ->
     errors r = [] /\ success r = true) /\
  (short_numbers scenarioA = true ->
   exists r, validate_log scenarioA None = Returned r /\
             errors r = [] /\ success r = true).
Proof.
  assert (H : ~ In "!"%char scenarioA).
  { apply (count_occ_not_In ascii_dec). reflexivity. }
  split; [exact H|]. exact (C3_no_marker_no_error scenarioA None H).
Defined.

(** C4.  Every record the loop body returns for a chunk has as message
    the first line of the chunk (the text before its first newline)
    without the white space at its two ends; it has a line number
    exactly when the chunk holds a marker [l.] followed by digits, the
    number then being that of the first such marker; without a marker it
    has no line reference.  The body returns a record when the chunk has
    no marker, and when the digits of its first marker are at most 4300;
    with more digits [int] raises. *)
Theorem C4_error_record_of_chunk (chunk : text) :
  (forall d, error_of_chunk chunk = Returned d ->
     message d = strip (first_line chunk) /\
     (exists l, is_first_line chunk l /\ trimmed l (message d)) /\
     ((exists n, lines d = Single n) <-> (exists i ds, marker_at chunk i ds)) /\
     (forall n, lines d = Single n ->
        exists i ds, marker_at chunk i ds /\
          (forall j ds', marker_at chunk j ds' -> i <= j) /\ n = decimal ds) /\
     ((forall i ds, ~ marker_at chunk i ds) -> lines d = NoLine)) /\
  ((forall i ds, ~ marker_at chunk i ds) ->
   exists d, error_of_chunk chunk = Returned d) /\
  (forall i ds,
     marker_at chunk i ds ->
     (forall j ds', marker_at chunk j ds' -> i <= j) ->
     (length ds <= int_max_str_digits ->
      exists d, error_of_chunk chunk = Returned d) /\
     (int_max_str_digits < length ds ->
      error_of_chunk chunk = Raised (int_limit_error (length ds)))) /\
  (short_numbers chunk = true -> exists d, error_of_chunk chunk = Returned d).
Proof.
  split; [|split; [|split]].
  - intros d E. pose proof (error_of_chunk_message _ E) as Hm.
    split; [exact Hm|]. split.
    { exists (first_line chunk). split; [apply first_line_is|].
      rewrite Hm. apply strip_trimmed. }
    rewrite error_of_chunk_spec in E.
    destruct (find_marker chunk) as [ds|] eqn:F.
    + destruct (find_marker_first _ F) as (i & M & Least).
      rewrite (int_digits_cases (find_marker_digits _ F)) in E.
      destruct (length ds <=? int_max_str_digits); [|discriminate].
      cbn [obind] in E. injection E as <-. cbn [lines].
      split; [split; eauto|]. split.
      * intros n H. injection H as <-. eauto 6.
      * intros No. destruct (No _ _ M).
    + pose proof (@find_marker_none chunk F) as No.
      injection E as <-. cbn [lines]. split; [split|split].
      * intros [n H]. discriminate.
      * intros (i & ds & M). destruct (No _ _ M).
      * intros n H. discriminate.
      * reflexivity.
  - intros No. rewrite error_of_chunk_spec.
    destruct (find_marker chunk) as [ds|] eqn:F; [|eauto].
    destruct (find_marker_first _ F) as (i & M & _). destruct (No _ _ M).
  - intros i ds M Least. rewrite (error_of_chunk_first_marker M Least).
    split; intros L.
    + apply Nat.leb_le in L. rewrite L. eauto.
    + apply Nat.leb_gt in L. rewrite L. reflexivity.
  - intros S. apply error_of_chunk_short, short_numbers_short, S.
Qed.

Lemma C4_error_record_of_chunk_witness :
  short_numbers scenarioB = true /\
  exists d,
    error_of_chunk scenarioB = Returned d /\
    message d = strip (first_line scenarioB) /\
    (exists l, is_first_line scenarioB l /\ trimmed l (message d)) /\
    ((exists n, lines d = Single n)
     <-> (exists i ds, marker_at scenarioB i ds)) /\
    (forall n, lines d = Single n ->
       exists i ds, marker_at scenarioB i ds /\
         (forall j ds', marker_at scenarioB j ds' -> i <= j) /\
         n = decimal ds) /\
    ((forall i ds, ~ marker_at scenarioB i ds) -> lines d = NoLine).
Proof.
  split; [reflexivity|].
  destruct (C4_error_record_of_chunk scenarioB) as (P & _ & _ & S).
  destruct (S eq_refl) as [d E]. exists d. split; [exact E|exact (P d E)].
Defined.

(** C5.  The warnings of a report are the candidate sequence without
    every candidate that equals an earlier one: first occurrences, in
    their order; so no record occurs twice, and every candidate is
    present.  There is a report whenever no number of the text is longer
    than the limit of [int]. *)
Theorem C5_warnings_first_occurrences (output : text) (lf : option text) :
  (forall r, validate_log output lf = Returned r ->
     exists cs,
       candidates output = Returned cs /\
       warnings r = first_occurrences [] cs /\
       NoDup (warnings r) /\
       (forall w, In w (warnings r) <-> In w cs)) /\
  (short_numbers output = true ->
   exists r, validate_log output lf = Returned r).
Proof.
  split; [|apply validate_log_short].
  intros r E. destruct (validate_log_inv _ _ E) as (cs & recs & C & _ & ->).
  exists cs. split; [exact C|].
  cbn [warnings make_report]. split; [reflexivity|]. split.
  - apply (@first_occurrences_NoDup cs [] []); [tauto|constructor].
  - intros w. rewrite first_occurrences_In. simpl. tauto.
Qed.

Lemma C5_warnings_first_occurrences_witness :
  short_numbers scenarioD = true /\
  exists r,
    validate_log scenarioD None = Returned r /\
    exists cs,
      candidates scenarioD = Returned cs /\
      warnings r = first_occurrences [] cs /\
      NoDup (warnings r) /\
      (forall w, In w (warnings r) <-> In w cs).
Proof.
  split; [reflexivity|].
  destruct (C5_warnings_first_occurrences scenarioD None) as [P S].
  destruct (S eq_refl) as [r E]. exists r. split; [exact E|exact (P r E)].
Defined.

(** C6.  The text is its head followed by its chunks, each from one
    marker to the next; the errors list of a report holds the record of
    every chunk, in the order of the chunks, equal records included.
    There is a report whenever no number of the text is longer than the
    limit of [int]. *)
Theorem C6_errors_one_per_chunk (output : text) (lf : option text) :
  (exists head chunks,
     output = head ++ concat chunks /\
     ~ In "!"%char head /\
     Forall is_chunk chunks /\
     forall r, validate_log output lf = Returned r ->
       Forall2 (fun c d => error_of_chunk c = Returned d) chunks (errors r)) /\
  (short_numbers output = true ->
   exists r, validate_log output lf = Returned r).
Proof.
  split; [|apply validate_log_short].
  exists (fst (cut output)), (snd (cut output)).
  split; [apply cut_concat|].
  split; [apply cut_head_clean|]. split; [apply cut_chunks_shape|].
  intros r E. destruct (validate_log_inv _ _ E) as (cs & recs & _ & F & ->).
  exact F.
Qed.

Lemma C6_errors_one_per_chunk_witness :
  short_numbers (scenarioB ++ scenarioB) = true /\
  exists r head chunks,
    validate_log (scenarioB ++ scenarioB) None = Returned r /\
    scenarioB ++ scenarioB = head ++ concat chunks /\
    ~ In "!"%char head /\
    Forall is_chunk chunks /\
    Forall2 (fun c d => error_of_chunk c = Returned d) chunks (errors r).
Proof.
  split; [reflexivity|].
  destruct (C6_errors_one_per_chunk (scenarioB ++ scenarioB) None)
    as [(head & chunks & E & H & Sh & F) S].
  destruct (S eq_refl) as [r V]. exists r, head, chunks.
  split; [exact V|]. split; [exact E|]. split; [exact H|].
  split; [exact Sh|exact (F r V)].
Defined.

(** Two equal error blocks give two equal records. *)
Example repeated_error_kept :
  validate_log (scenarioB ++ scenarioB) None
  = Returned (make_report []
      [Diag (T "! Undefined control sequence.") (Single 20);
       Diag (T "! Undefined control sequence.") (Single 20)] None).
Proof. vm_compute. reflexivity. Qed.

(** Scenario B of the specification: one error block with its line. *)
Example scenarioB_report :
  validate_log scenarioB None
  = Returned (Report [] [Diag (T "! Undefined control sequence.") (Single 20)]
                (T "0 warnings, 1 errors found") None false).
Proof. vm_compute. reflexivity. Qed.

(** Without the closing period the first group of both rules runs over
    the newline: still two records, with other messages. *)
Example scenarioD_bare_two_records :
  exists r, validate_log scenarioD_bare None = Returned r /\
            length (warnings r) = 2.
Proof. eexists. split; [vm_compute; reflexivity|reflexivity]. Qed.

(** C7.  The report holds the two lists as given; its summary is the
    decimal numeral of the number of warnings, the text [ warnings, ],
    the decimal numeral of the number of errors and the text
    [ errors found]; success holds exactly when there is no error; the
    empty log text gives the empty report. *)
Theorem C7_report_of_lists :
  (forall ws es lf,
     warnings (make_report ws es lf) = ws /\
     errors (make_report ws es lf) = es /\
     summary (make_report ws es lf)
     = str_of_nat (length ws) ++ T " warnings, "
       ++ str_of_nat (length es) ++ T " errors found" /\
     (exists nw ne,
        numeral nw (length ws) /\ numeral ne (length es) /\
        summary (make_report ws es lf)
        = nw ++ T " warnings, " ++ ne ++ T " errors found") /\
     (success (make_report ws es lf) = true <-> es = [])) /\
  (forall lf,
     validate_log [] lf
     = Returned (Report [] [] (T "0 warnings, 0 errors found") lf true)).
Proof.
  split.
  - intros ws es lf. cbn [make_report warnings errors summary success].
    split; [reflexivity|]. split; [reflexivity|]. split; [reflexivity|].
    split.
    + exists (str_of_nat (length ws)), (str_of_nat (length es)).
      split; [apply str_of_nat_numeral|].
      split; [apply str_of_nat_numeral|reflexivity].
    + split.
      * intros H. apply Nat.eqb_eq in H. apply length_zero_iff_nil. exact H.
      * intros ->. reflexivity.
  - intros lf. vm_compute. reflexivity.
Qed.

(** C10.  A report has as many error records as the text has marker
    characters, wherever they stand.  There is a report whenever no
    number of the text is longer than the limit of [int]. *)
Theorem C10_errors_count_markers (output : text) (lf : option text) :
  (forall r, validate_log output lf = Returned r ->
     length (errors r) = count_occ ascii_dec output "!"%char) /\
  (short_numbers output = true ->
   exists r, validate_log output lf = Returned r).
Proof.
  split; [|apply validate_log_short].
  intros r E. destruct (validate_log_inv _ _ E) as (cs & recs & _ & F & ->).
  cbn [errors make_report].
  rewrite <- (Forall2_length F). apply cut_count.
Qed.

Lemma C10_errors_count_markers_witness :
  short_numbers inner_marker = true /\
  exists r,
    validate_log inner_marker None = Returned r /\
    length (errors r) = count_occ ascii_dec inner_marker "!"%char.
Proof.
  split; [reflexivity|].
  destruct (C10_errors_count_markers inner_marker None) as [P S].
  destruct (S eq_refl) as [r E]. exists r. split; [exact E|exact (P r E)].
Defined.

(** * The function as a whole *)

Section Fuel.

Context {W : Type}.

Lemma bounded_ret {A} (a : A) : bounded (@ret W A a).
Proof. intros s. discriminate. Qed.

Lemma bounded_call {A} (ev : event) (f : W -> result A * W) :
  bounded (call ev f).
Proof.
  intros [w tr]. unfold call. destruct (f w) as [[a|e] w']; discriminate.
Qed.

Lemma bounded_bind {A B} (c : io A) (f : A -> @io W B) :
  bounded c -> (forall a, bounded (f a)) -> bounded (bind c f).
Proof.
  intros Hc Hf s. unfold bind. specialize (Hc s).
  destruct (c s) as [[a|e|] s']; simpl in *; [apply Hf|discriminate|congruence].
Qed.

Lemma bounded_parse (output : text) : bounded (@pure W _ (parse_log output)).
Proof.
  intros s. unfold pure. cbn [fst].
  pose proof (parse_log_benign output) as B.
  destruct (parse_log output); [discriminate|discriminate|destruct B].
Qed.

End Fuel.

(** C8.  When the resolved path does not exist, or exists and does not
    end in [.tex], [validate_tex] returns the error dictionary with its
    message, and the calls made are the resolution and the existence test
    only: no run of [pdflatex], no log read, no parsing. *)
Theorem C8_bad_path_short_circuits (W : Type) (pf : platform W)
  (tex_path tex_file : text) (file_exists : bool) (w w1 w2 : W)
  (tr : list event) :
  pf_resolve pf tex_path w = (Ok tex_file, w1) ->
  pf_exists pf tex_file w1 = (Ok file_exists, w2) ->
  file_exists = false \/ endswith tex_file (T ".tex") = false ->
  validate_tex pf tex_path (w, tr)
  = (Returned (ErrorValue (T "File " ++ tex_path
                           ++ if file_exists then T " is not a LaTeX file"
                              else T " does not exist")),
     (w2, (tr ++ [EvResolve tex_path]) ++ [EvExists tex_file])).
Proof.
  intros R X Bad. unfold validate_tex, try_except, bind, call, ret.
  rewrite R, X. destruct file_exists; cbn [negb].
  - destruct Bad as [Bad|Bad]; [discriminate|]. rewrite Bad. reflexivity.
  - reflexivity.
Qed.

Lemma C8_bad_path_short_circuits_witness :
  pf_resolve demo_platform (T "cv.txt") [T "cv.txt"] = (Ok (T "cv.txt"), [T "cv.txt"]) /\
  pf_exists demo_platform (T "cv.txt") [T "cv.txt"] = (Ok true, [T "cv.txt"]) /\
  (true = false \/ endswith (T "cv.txt") (T ".tex") = false) /\
  validate_tex demo_platform (T "cv.txt") ([T "cv.txt"], [])
  = (Returned (ErrorValue (T "File cv.txt is not a LaTeX file")),
     ([T "cv.txt"], [EvResolve (T "cv.txt"); EvExists (T "cv.txt")])).
Proof.
  split; [reflexivity|]. split; [reflexivity|].
  split; [right; reflexivity|].
  exact (@C8_bad_path_short_circuits _ demo_platform (T "cv.txt") (T "cv.txt")
           true [T "cv.txt"] [T "cv.txt"] [T "cv.txt"] []
           eq_refl eq_refl (or_intror eq_refl)).
Defined.

(** C9, as stated, fails: an error block whose source-line marker has
    4301 digits makes the parsing phase raise, by the refusal of [int]
    to convert it; so not every log text is parsed. *)
Lemma C9_counterexample :
  parse_log oversize = Raised (int_limit_error 4301) /\
  validate_log oversize None = Raised (int_limit_error 4301) /\
  ~ (forall output, exists ws es, parse_log output = Returned (ws, es)).
Proof.
  assert (H : parse_log oversize = Raised (int_limit_error 4301))
    by (vm_compute; reflexivity).
  split; [exact H|]. split.
  - unfold validate_log. rewrite H. reflexivity.
  - intros A. destruct (A oversize) as (ws & es & E). congruence.
Qed.

(** C9, amended.  The parsing phase returns the two lists for every log
    text in which no run of digits is longer than 4300; for every log
    text it returns them or raises the [ValueError] of [int] on a number
    of more than 4300 digits, and nothing else: no other step raises and
    no loop of the model runs out of its bound.  [validate_tex] itself
    always returns a value, the report or the error dictionary, in every
    environment; when the parsing phase raises on the content of the log
    file, that value is the error dictionary with the message of the
    exception, and no report. *)
Theorem C9_validation_always_returns :
  (forall output, short_numbers output = true ->
     exists ws es, parse_log output = Returned (ws, es)) /\
  (forall output, benign (parse_log output)) /\
  (forall output lf, short_numbers output = true ->
     exists r, validate_log output lf = Returned r) /\
  (forall (W : Type) (pf : platform W) (tex_path : text) (s : W * list event),
     exists resp s', validate_tex pf tex_path s = (Returned resp, s')) /\
  (forall (W : Type) (pf : platform W)
     (tex_path tex_file stdout output : text) (e : exn)
     (w w1 w2 w3 w4 w5 : W) (tr : list event),
     pf_resolve pf tex_path w = (Ok tex_file, w1) ->
     pf_exists pf tex_file w1 = (Ok true, w2) ->
     endswith tex_file (T ".tex") = true ->
     pf_pdflatex pf (pf_parent pf tex_file) (pf_name pf tex_file) w2
     = (Ok stdout, w3) ->
     pf_exists pf (log_path_of pf tex_file) w3 = (Ok true, w4) ->
     pf_read pf (log_path_of pf tex_file) w4 = (Ok output, w5) ->
     parse_log output = Raised e ->
     validate_tex pf tex_path (w, tr)
     = (Returned (ErrorValue
                    (T "Failed to validate LaTeX file: " ++ str_of_exn e)),
        (w5, tr ++ [EvResolve tex_path; EvExists tex_file;
                    EvPdflatex (pf_parent pf tex_file) (pf_name pf tex_file);
                    EvExists (log_path_of pf tex_file);
                    EvReadLog (log_path_of pf tex_file)]))).
Proof.
  split; [|split; [|split; [|split]]].
  - apply parse_log_short.
  - apply parse_log_benign.
  - intros output lf. apply validate_log_short.
  - intros W pf tex_path s. unfold validate_tex.
    match goal with |- context [try_except ?b ?h] => set (body := b) end.
    assert (B : bounded body).
    { unfold body. apply bounded_bind; [apply bounded_call|]. intros tex_file.
      apply bounded_bind; [apply bounded_call|]. intros file_exists.
      destruct (negb file_exists); [apply bounded_ret|].
      destruct (negb (endswith tex_file (T ".tex"))); [apply bounded_ret|].
      apply bounded_bind; [apply bounded_call|]. intros stdout.
      apply bounded_bind; [apply bounded_call|]. intros log_exists.
      apply bounded_bind.
      { destruct log_exists; [apply bounded_call|apply bounded_ret]. }
      intros output. apply bounded_bind; [apply bounded_parse|]. intros parsed.
      apply bounded_bind; [apply bounded_call|]. intros still.
      apply bounded_ret. }
    unfold try_except. specialize (B s).
    destruct (body s) as [[resp|e|] s']; simpl in B.
    + eauto.
    + unfold ret. eauto.
    + congruence.
  - unfold log_path_of. intros W pf tex_path tex_file stdout output e
      w w1 w2 w3 w4 w5 tr R X Ext P L Rd Pg.
    unfold validate_tex, try_except, bind, call, ret, pure.
    rewrite R, X. cbn [negb]. rewrite Ext. cbn [negb].
    rewrite P, L, Rd, Pg.
    cbn [fst snd]. rewrite <- !app_assoc. reflexivity.
Qed.

Lemma C9_validation_always_returns_witness :
  short_numbers scenarioB = true /\
  (exists ws es, parse_log scenarioB = Returned (ws, es)) /\
  (exists r, validate_log scenarioB None = Returned r).
Proof.
  split; [reflexivity|].
  destruct C9_validation_always_returns as (P & _ & V & _).
  split; [exact (P scenarioB eq_refl)|exact (V scenarioB None eq_refl)].
Defined.

(** * Further properties of the reports *)

(** X1.  The verdict of a report depends on one thing only: success is
    true exactly when the log text holds no marker character.  There is
    a report whenever no number of the text is longer than the limit of
    [int]. *)
Theorem X1_success_iff_no_marker (output : text) (lf : option text) :
  (forall r, validate_log output lf = Returned r ->
     (success r = true <-> ~ In "!"%char output)) /\
  (short_numbers output = true ->
   exists r, validate_log output lf = Returned r).
Proof.
  split; [|apply validate_log_short].
  intros r E. destruct (validate_log_inv _ _ E) as (cs & recs & _ & F & ->).
  cbn [success make_report].
  rewrite <- (Forall2_length F), cut_count, Nat.eqb_eq.
  symmetry. apply count_occ_not_In.
Qed.

Lemma X1_success_iff_no_marker_witness :
  short_numbers inner_marker = true /\
  exists r,
    validate_log inner_marker None = Returned r /\
    (success r = true <-> ~ In "!"%char inner_marker).
Proof.
  split; [reflexivity|].
  destruct (X1_success_iff_no_marker inner_marker None) as [P S].
  destruct (S eq_refl) as [r E]. exists r. split; [exact E|exact (P r E)].
Defined.

(** X2.  Every error record of a report has a message that starts with
    the marker character, holds no newline and does not end in white
    space; so it is never empty.  There is a report whenever no number
    of the text is longer than the limit of [int]. *)
Theorem X2_error_messages (output : text) (lf : option text) :
  (forall r, validate_log output lf = Returned r ->
     Forall (fun d =>
               (exists t, message d = "!"%char :: t) /\
               ~ In nl (message d) /\
               isspace (last (message d) "!"%char) = false) (errors r)) /\
  (short_numbers output = true ->
   exists r, validate_log output lf = Returned r).
Proof.
  split; [|apply validate_log_short].
  intros r E. destruct (validate_log_inv _ _ E) as (cs & recs & _ & F & ->).
  cbn [errors make_report].
  exact (records_messages F (cut_chunks_shape output)).
Qed.

Lemma X2_error_messages_witness :
  short_numbers scenarioB = true /\
  exists r,
    validate_log scenarioB None = Returned r /\
    Forall (fun d =>
              (exists t, message d = "!"%char :: t) /\
              ~ In nl (message d) /\
              isspace (last (message d) "!"%char) = false) (errors r).
Proof.
  split; [reflexivity|].
  destruct (X2_error_messages scenarioB None) as [P S].
  destruct (S eq_refl) as [r E]. exists r. split; [exact E|exact (P r E)].
Defined.

(** X3.  The warnings of a report come in three blocks, in the order of
    the rules: the records with a line range, then the records with one
    line, then the records without a line.  There is a report whenever
    no number of the text is longer than the limit of [int]. *)
Theorem X3_warnings_in_rule_order (output : text) (lf : option text) :
  (forall r, validate_log output lf = Returned r ->
     exists ranged lined bare,
       warnings r = ranged ++ lined ++ bare /\
       Forall is_range ranged /\ Forall is_single lined /\
       Forall is_bare bare) /\
  (short_numbers output = true ->
   exists r, validate_log output lf = Returned r).
Proof.
  split; [|apply validate_log_short].
  intros r E. destruct (validate_log_inv _ _ E) as (cs & recs & C & _ & ->).
  destruct (candidates_by_rule _ C) as (c1 & c2 & c3 & -> & R & S & B).
  eexists. eexists. eexists.
  cbn [warnings make_report]. rewrite !first_occurrences_app.
  split; [reflexivity|].
  split; [|split]; apply first_occurrences_Forall; assumption.
Qed.

Lemma X3_warnings_in_rule_order_witness :
  short_numbers (scenarioD ++ box_plain) = true /\
  exists r,
    validate_log (scenarioD ++ box_plain) None = Returned r /\
    exists ranged lined bare,
      warnings r = ranged ++ lined ++ bare /\
      Forall is_range ranged /\ Forall is_single lined /\
      Forall is_bare bare.
Proof.
  split; [reflexivity|].
  destruct (X3_warnings_in_rule_order (scenarioD ++ box_plain) None) as [P S].
  destruct (S eq_refl) as [r E]. exists r. split; [exact E|exact (P r E)].
Defined.

(** X4.  In a report, a warning with a line number never stands alone:
    the warnings then hold at least one record without a line as well.
    There is a report whenever no number of the text is longer than the
    limit of [int]. *)
Theorem X4_lined_warning_brings_bare_one (output : text) (lf : option text) :
  (forall r, validate_log output lf = Returned r ->
     Exists is_single (warnings r) -> Exists is_bare (warnings r)) /\
  (short_numbers output = true ->
   exists r, validate_log output lf = Returned r).
Proof.
  split; [|apply validate_log_short].
  intros r E. destruct (validate_log_inv _ _ E) as (cs & recs & C & _ & ->).
  cbn [warnings make_report].
  rewrite !Exists_exists. intros (d & Hd & Sd).
  apply first_occurrences_In in Hd. destruct Hd as [Hd _].
  assert (B : exists msg, In (Diag msg NoLine) cs).
  { destruct (candidates_of_located _ _ C _ Hd)
      as (p & f & m & pre & Hp & M & Ho & Hf).
    unfold warning_patterns in Hp. simpl in Hp.
    destruct Hp as [Hp|[Hp|[Hp|[Hp|[]]]]]; injection Hp as <- <-.
    - apply box_extract_range in Hf. destruct Sd as [n Sn], Hf as (a & b & R).
      congruence.
    - unfold match_of, latex_line_pattern in M.
      apply Matches_Lit_front in M. destruct M as [y Ey]. cbn [rest] in Ey.
      rewrite Ey in Ho.
      destruct (other_here y) as [st H]. subst output.
      exact (candidates_other pre _ H C).
    - unfold match_of, package_line_pattern in M.
      apply Matches_package_front in M.
      destruct M as (name & y & Hne & Hall & Ey). cbn [rest] in Ey.
      rewrite Ey in Ho.
      destruct (@other_here_package name y Hne Hall) as [st H]. subst output.
      exact (candidates_other pre _ H C).
    - apply other_extract_bare in Hf. destruct Sd as [n Sn]. red in Hf.
      congruence. }
  destruct B as [msg B]. exists (Diag msg NoLine). split; [|reflexivity].
  apply first_occurrences_In. split; [exact B|intros []].
Qed.

Lemma X4_lined_warning_brings_bare_one_witness :
  short_numbers scenarioD = true /\
  exists r,
    validate_log scenarioD None = Returned r /\
    (Exists is_single (warnings r) -> Exists is_bare (warnings r)).
Proof.
  split; [reflexivity|].
  destruct (X4_lined_warning_brings_bare_one scenarioD None) as [P S].
  destruct (S eq_refl) as [r E]. exists r. split; [exact E|exact (P r E)].
Defined.

(** X5.  Without the words [Warning: ] and [ in paragraph at lines ]
    in the log text a report has no warning: every rule needs one of
    them.  There is a report whenever no number of the text is longer
    than the limit of [int]. *)
Theorem X5_no_keyword_no_warning (output : text) (lf : option text) :
  text_in (T "Warning: ") output = false ->
  text_in (T " in paragraph at lines ") output = false ->
  (forall r, validate_log output lf = Returned r -> warnings r = []) /\
  (short_numbers output = true ->
   exists r, validate_log output lf = Returned r /\ warnings r = []).
Proof.
  intros NW NB.
  assert (P : forall r, validate_log output lf = Returned r -> warnings r = []).
  { intros r E. destruct (validate_log_inv _ _ E) as (cs & recs & C & _ & ->).
    cbn [warnings make_report].
    assert (Z : cs = []).
    { destruct cs as [|d cs']; [reflexivity|]. exfalso.
      destruct (candidates_of_located _ _ C d (or_introl eq_refl))
        as (p & f & m & pre & Hp & M & Ho & _).
      unfold warning_patterns in Hp. simpl in Hp.
      destruct Hp as [Hp|[Hp|[Hp|[Hp|[]]]]]; injection Hp as <- <-.
      - unfold match_of, box_pattern in M. apply Matches_Lit_second in M.
        destruct M as (x & y & Ey). cbn [rest] in Ey.
        rewrite Ey, app_assoc in Ho.
        rewrite Ho, text_in_app in NB. discriminate.
      - unfold match_of, latex_line_pattern in M.
        apply Matches_Lit_front in M. destruct M as [y Ey]. cbn [rest] in Ey.
        rewrite Ey in Ho.
        change (T "LaTeX Warning: ") with (T "LaTeX " ++ T "Warning: ") in Ho.
        rewrite <- app_assoc, app_assoc in Ho.
        rewrite Ho, text_in_app in NW. discriminate.
      - unfold match_of, package_line_pattern in M.
        apply Matches_package_front in M.
        destruct M as (name & y & _ & _ & Ey). cbn [rest] in Ey.
        rewrite Ey in Ho.
        change (T " Warning: ") with (T " " ++ T "Warning: ") in Ho.
        rewrite <- (app_assoc (T " ")) in Ho. rewrite !app_assoc in Ho.
        rewrite <- (app_assoc _ (T "Warning: ") y) in Ho.
        rewrite Ho, text_in_app in NW. discriminate.
      - unfold match_of, other_pattern in M. apply Matches_Lit_second in M.
        destruct M as (x & y & Ey). cbn [rest] in Ey. rewrite Ey in Ho.
        change (T " Warning: ") with (T " " ++ T "Warning: ") in Ho.
        rewrite <- (app_assoc (T " ")) in Ho. rewrite !app_assoc in Ho.
        rewrite <- (app_assoc _ (T "Warning: ") y) in Ho.
        rewrite Ho, text_in_app in NW. discriminate. }
    rewrite Z. reflexivity. }
  split; [exact P|]. intros S.
  destruct (validate_log_short output lf S) as [r E]. eauto.
Qed.

Lemma X5_no_keyword_no_warning_witness :
  text_in (T "Warning: ") scenarioB = false /\
  text_in (T " in paragraph at lines ") scenarioB = false /\
  (forall r, validate_log scenarioB None = Returned r -> warnings r = []) /\
  (short_numbers scenarioB = true ->
   exists r, validate_log scenarioB None = Returned r /\ warnings r = []).
Proof.
  split; [reflexivity|]. split; [reflexivity|].
  exact (@X5_no_keyword_no_warning scenarioB None eq_refl eq_refl).
Defined.

(** * Further properties of [validate_tex] *)

(** X6.  When the log file exists after the run, the report is read
    from the content of the log file; what [pdflatex] printed is not
    looked at.  The calls are, in this order: resolve, exists, the run,
    exists on the log, the read, exists on the log again; [log_file] is
    the log path if that last test still finds it.  The report is there
    whenever no number of the log is longer than the limit of [int]. *)
Theorem X6_report_from_log_file (W : Type) (pf : platform W)
  (tex_path tex_file stdout output : text) (still : bool)
  (w w1 w2 w3 w4 w5 w6 : W) (tr : list event) :
  pf_resolve pf tex_path w = (Ok tex_file, w1) ->
  pf_exists pf tex_file w1 = (Ok true, w2) ->
  endswith tex_file (T ".tex") = true ->
  pf_pdflatex pf (pf_parent pf tex_file) (pf_name pf tex_file) w2
  = (Ok stdout, w3) ->
  pf_exists pf (log_path_of pf tex_file) w3 = (Ok true, w4) ->
  pf_read pf (log_path_of pf tex_file) w4 = (Ok output, w5) ->
  pf_exists pf (log_path_of pf tex_file) w5 = (Ok still, w6) ->
  (forall r,
     validate_log output
       (if still then Some (log_path_of pf tex_file) else None) = Returned r ->
     validate_tex pf tex_path (w, tr)
     = (Returned (ReportValue r),
        (w6, tr ++ [EvResolve tex_path; EvExists tex_file;
                    EvPdflatex (pf_parent pf tex_file) (pf_name pf tex_file);
                    EvExists (log_path_of pf tex_file);
                    EvReadLog (log_path_of pf tex_file);
                    EvExists (log_path_of pf tex_file)]))) /\
  (short_numbers output = true ->
   exists r,
     validate_log output
       (if still then Some (log_path_of pf tex_file) else None) = Returned r /\
     validate_tex pf tex_path (w, tr)
     = (Returned (ReportValue r),
        (w6, tr ++ [EvResolve tex_path; EvExists tex_file;
                    EvPdflatex (pf_parent pf tex_file) (pf_name pf tex_file);
                    EvExists (log_path_of pf tex_file);
                    EvReadLog (log_path_of pf tex_file);
                    EvExists (log_path_of pf tex_file)]))).
Proof.
  intros R X Ext P L Rd St.
  match goal with |- ?A /\ _ => assert (H : A) end.
  { unfold log_path_of in *. intros r V. unfold validate_log in V.
    destruct (parse_log output) as [[ws es]| |] eqn:Pg; try discriminate.
    cbn [obind] in V. injection V as <-.
    unfold validate_tex, try_except, bind, call, ret, pure.
    rewrite R, X. cbn [negb]. rewrite Ext. cbn [negb].
    rewrite P, L, Rd, Pg, St.
    cbn [fst snd]. rewrite <- !app_assoc. reflexivity. }
  split; [exact H|]. intros S.
  match goal with |- context [validate_log output ?lf] =>
    destruct (validate_log_short output lf S) as [r V] end.
  exists r. split; [exact V|exact (H r V)].
Qed.

Lemma X6_report_from_log_file_witness :
  pf_resolve log_platform (T "cv.tex") [T "cv.tex"; T "cv.log"]
  = (Ok (T "cv.tex"), [T "cv.tex"; T "cv.log"]) /\
  pf_exists log_platform (T "cv.tex") [T "cv.tex"; T "cv.log"]
  = (Ok true, [T "cv.tex"; T "cv.log"]) /\
  endswith (T "cv.tex") (T ".tex") = true /\
  pf_pdflatex log_platform [] (T "cv.tex") [T "cv.tex"; T "cv.log"]
  = (Ok scenarioD, [T "cv.tex"; T "cv.log"]) /\
  pf_exists log_platform (T "cv.log") [T "cv.tex"; T "cv.log"]
  = (Ok true, [T "cv.tex"; T "cv.log"]) /\
  pf_read log_platform (T "cv.log") [T "cv.tex"; T "cv.log"]
  = (Ok scenarioB, [T "cv.tex"; T "cv.log"]) /\
  short_numbers scenarioB = true /\
  exists r,
    validate_log scenarioB (Some (T "cv.log")) = Returned r /\
    validate_tex log_platform (T "cv.tex") ([T "cv.tex"; T "cv.log"], [])
    = (Returned (ReportValue r),
       ([T "cv.tex"; T "cv.log"],
        [EvResolve (T "cv.tex"); EvExists (T "cv.tex");
         EvPdflatex [] (T "cv.tex");
         EvExists (T "cv.log"); EvReadLog (T "cv.log");
         EvExists (T "cv.log")])).
Proof.
  do 7 (split; [reflexivity|]).
  exact (proj2 (@X6_report_from_log_file _ log_platform (T "cv.tex")
           (T "cv.tex") scenarioD scenarioB true
           [T "cv.tex"; T "cv.log"] [T "cv.tex"; T "cv.log"]
           [T "cv.tex"; T "cv.log"] [T "cv.tex"; T "cv.log"]
           [T "cv.tex"; T "cv.log"] [T "cv.tex"; T "cv.log"]
           [T "cv.tex"; T "cv.log"] []
           eq_refl eq_refl eq_refl eq_refl eq_refl eq_refl eq_refl) eq_refl).
Defined.

(** X7.  When there is no log file after the run, the report is read
    from what [pdflatex] printed and no file is read.  [log_file] follows
    the second existence test alone: it names the log path if the file
    has appeared by then, although the report was not read from it.  The
    report is there whenever no number of the printed text is longer
    than the limit of [int]. *)
Theorem X7_report_from_captured_output (W : Type) (pf : platform W)
  (tex_path tex_file stdout : text) (still : bool)
  (w w1 w2 w3 w4 w5 : W) (tr : list event) :
  pf_resolve pf tex_path w = (Ok tex_file, w1) ->
  pf_exists pf tex_file w1 = (Ok true, w2) ->
  endswith tex_file (T ".tex") = true ->
  pf_pdflatex pf (pf_parent pf tex_file) (pf_name pf tex_file) w2
  = (Ok stdout, w3) ->
  pf_exists pf (log_path_of pf tex_file) w3 = (Ok false, w4) ->
  pf_exists pf (log_path_of pf tex_file) w4 = (Ok still, w5) ->
  (forall r,
     validate_log stdout
       (if still then Some (log_path_of pf tex_file) else None) = Returned r ->
     validate_tex pf tex_path (w, tr)
     = (Returned (ReportValue r),
        (w5, tr ++ [EvResolve tex_path; EvExists tex_file;
                    EvPdflatex (pf_parent pf tex_file) (pf_name pf tex_file);
                    EvExists (log_path_of pf tex_file);
                    EvExists (log_path_of pf tex_file)]))) /\
  (short_numbers stdout = true ->
   exists r,
     validate_log stdout
       (if still then Some (log_path_of pf tex_file) else None) = Returned r /\
     validate_tex pf tex_path (w, tr)
     = (Returned (ReportValue r),
        (w5, tr ++ [EvResolve tex_path; EvExists tex_file;
                    EvPdflatex (pf_parent pf tex_file) (pf_name pf tex_file);
                    EvExists (log_path_of pf tex_file);
                    EvExists (log_path_of pf tex_file)]))).
Proof.
  intros R X Ext P L St.
  match goal with |- ?A /\ _ => assert (H : A) end.
  { unfold log_path_of in *. intros r V. unfold validate_log in V.
    destruct (parse_log stdout) as [[ws es]| |] eqn:Pg; try discriminate.
    cbn [obind] in V. injection V as <-.
    unfold validate_tex, try_except, bind, call, ret, pure.
    rewrite R, X. cbn [negb]. rewrite Ext. cbn [negb].
    rewrite P, L, Pg, St.
    cbn [fst snd]. rewrite <- !app_assoc. reflexivity. }
  split; [exact H|]. intros S.
  match goal with |- context [validate_log stdout ?lf] =>
    destruct (validate_log_short stdout lf S) as [r V] end.
  exists r. split; [exact V|exact (H r V)].
Qed.

Lemma X7_report_from_captured_output_witness :
  pf_resolve log_platform (T "cv.tex") [T "cv.tex"]
  = (Ok (T "cv.tex"), [T "cv.tex"]) /\
  pf_exists log_platform (T "cv.tex") [T "cv.tex"] = (Ok true, [T "cv.tex"]) /\
  endswith (T "cv.tex") (T ".tex") = true /\
  pf_pdflatex log_platform [] (T "cv.tex") [T "cv.tex"]
  = (Ok scenarioD, [T "cv.tex"]) /\
  pf_exists log_platform (T "cv.log") [T "cv.tex"] = (Ok false, [T "cv.tex"]) /\
  short_numbers scenarioD = true /\
  exists r,
    validate_log scenarioD None = Returned r /\
    validate_tex log_platform (T "cv.tex") ([T "cv.tex"], [])
    = (Returned (ReportValue r),
       ([T "cv.tex"],
        [EvResolve (T "cv.tex"); EvExists (T "cv.tex");
         EvPdflatex [] (T "cv.tex");
         EvExists (T "cv.log"); EvExists (T "cv.log")])).
Proof.
  do 6 (split; [reflexivity|]).
  exact (proj2 (@X7_report_from_captured_output _ log_platform (T "cv.tex")
           (T "cv.tex") scenarioD false
           [T "cv.tex"] [T "cv.tex"] [T "cv.tex"] [T "cv.tex"] [T "cv.tex"]
           [T "cv.tex"] [] eq_refl eq_refl eq_refl eq_refl eq_refl eq_refl)
           eq_refl).
Defined.

(** X8.  When the run of [pdflatex] raises, [validate_tex] does not
    raise: it returns the error dictionary with the text of the
    exception after [Failed to validate LaTeX file: ], and neither looks
    for a log nor reads one. *)
Theorem X8_engine_failure_reported (W : Type) (pf : platform W)
  (tex_path tex_file : text) (e : exn) (w w1 w2 w3 : W) (tr : list event) :
  pf_resolve pf tex_path w = (Ok tex_file, w1) ->
  pf_exists pf tex_file w1 = (Ok true, w2) ->
  endswith tex_file (T ".tex") = true ->
  pf_pdflatex pf (pf_parent pf tex_file) (pf_name pf tex_file) w2
  = (Err e, w3) ->
  validate_tex pf tex_path (w, tr)
  = (Returned (ErrorValue (T "Failed to validate LaTeX file: " ++ str_of_exn e)),
     (w3, tr ++ [EvResolve tex_path; EvExists tex_file;
                 EvPdflatex (pf_parent pf tex_file) (pf_name pf tex_file)])).
Proof.
  intros R X Ext P.
  unfold validate_tex, try_except, bind, call, ret, pure.
  rewrite R, X. cbn [negb]. rewrite Ext. cbn [negb]. rewrite P.
  rewrite <- !app_assoc. reflexivity.
Qed.

Lemma X8_engine_failure_reported_witness :
  pf_resolve broken_platform (T "cv.tex") [T "cv.tex"] = (Ok (T "cv.tex"), [T "cv.tex"]) /\
  pf_exists broken_platform (T "cv.tex") [T "cv.tex"] = (Ok true, [T "cv.tex"]) /\
  endswith (T "cv.tex") (T ".tex") = true /\
  validate_tex broken_platform (T "cv.tex") ([T "cv.tex"], [])
  = (Returned (ErrorValue
       (T "Failed to validate LaTeX file: No such file or directory: 'pdflatex'")),
     ([T "cv.tex"], [EvResolve (T "cv.tex"); EvExists (T "cv.tex");
          EvPdflatex [] (T "cv.tex")])).
Proof.
  repeat (split; [reflexivity|]).
  exact (@X8_engine_failure_reported _ broken_platform (T "cv.tex") (T "cv.tex")
           _ [T "cv.tex"] [T "cv.tex"] [T "cv.tex"] [T "cv.tex"] [] eq_refl eq_refl eq_refl eq_refl).
Defined.

(** X9.  A report is returned only for a path that resolves to a name
    ending in [.tex], after exactly one run of [pdflatex], and it is the
    parse of one text: so every property of the parsing phase holds for
    every report the tool returns, in every environment. *)
Theorem X9_report_comes_from_one_run (W : Type) (pf : platform W)
  (tex_path : text) (w w' : W) (tr tr' : list event) (r : report) :
  validate_tex pf tex_path (w, tr) = (Returned (ReportValue r), (w', tr')) ->
  exists tex_file output later,
    endswith tex_file (T ".tex") = true /\
    validate_log output (log_file r) = Returned r /\
    tr' = tr ++ [EvResolve tex_path; EvExists tex_file;
                 EvPdflatex (pf_parent pf tex_file) (pf_name pf tex_file)]
             ++ later /\
    Forall not_a_run later.
Proof.
  unfold validate_tex, try_except, bind, call, ret, pure. intros H.
  destruct (pf_resolve pf tex_path w) as [[tex_file|e] w1]; [|discriminate].
  destruct (pf_exists pf tex_file w1) as [[[|]|e] w2]; try discriminate.
  cbn [negb] in H.
  destruct (endswith tex_file (T ".tex")) eqn:Ext; [|discriminate].
  cbn [negb] in H.
  destruct (pf_pdflatex pf _ _ w2) as [[stdout|e] w3]; [|discriminate].
  destruct (pf_exists pf _ w3) as [[[|]|e] w4]; try discriminate.
  - destruct (pf_read pf _ w4) as [[output|e] w5]; [|discriminate].
    destruct (parse_log output) as [[ws es]| |] eqn:P; try discriminate.
    destruct (pf_exists pf _ w5) as [[still|e] w6]; [|discriminate].
    injection H as <- <- <-. exists tex_file, output. eexists.
    split; [exact Ext|]. split; [|split].
    + unfold validate_log. rewrite P. reflexivity.
    + rewrite <- !app_assoc. reflexivity.
    + repeat constructor.
  - destruct (parse_log stdout) as [[ws es]| |] eqn:P; try discriminate.
    destruct (pf_exists pf _ w4) as [[still|e] w5]; [|discriminate].
    injection H as <- <- <-. exists tex_file, stdout. eexists.
    split; [exact Ext|]. split; [|split].
    + unfold validate_log. rewrite P. reflexivity.
    + rewrite <- !app_assoc. reflexivity.
    + repeat constructor.
Qed.

Lemma X9_report_comes_from_one_run_witness :
  validate_tex log_platform (T "cv.tex") ([T "cv.tex"], [])
  = (Returned (ReportValue
       (make_report [Diag (T "LaTeX Warning: X") (Single 5);
                     Diag (T "LaTeX Warning: X on line 5") NoLine] [] None)),
     ([T "cv.tex"],
      [EvResolve (T "cv.tex"); EvExists (T "cv.tex");
       EvPdflatex [] (T "cv.tex");
       EvExists (T "cv.log"); EvExists (T "cv.log")])) /\
  exists tex_file output later,
    endswith tex_file (T ".tex") = true /\
    validate_log output None
    = Returned (make_report [Diag (T "LaTeX Warning: X") (Single 5);
                             Diag (T "LaTeX Warning: X on line 5") NoLine]
                  [] None) /\
    [EvResolve (T "cv.tex"); EvExists (T "cv.tex");
     EvPdflatex [] (T "cv.tex"); EvExists (T "cv.log"); EvExists (T "cv.log")]
    = [] ++ [EvResolve (T "cv.tex"); EvExists tex_file;
             EvPdflatex (pf_parent log_platform tex_file)
               (pf_name log_platform tex_file)] ++ later /\
    Forall not_a_run later.
Proof.
  assert (H : validate_tex log_platform (T "cv.tex") ([T "cv.tex"], [])
            = (Returned (ReportValue
                 (make_report [Diag (T "LaTeX Warning: X") (Single 5);
                               Diag (T "LaTeX Warning: X on line 5") NoLine]
                    [] None)),
               ([T "cv.tex"],
                [EvResolve (T "cv.tex"); EvExists (T "cv.tex");
                 EvPdflatex [] (T "cv.tex");
                 EvExists (T "cv.log"); EvExists (T "cv.log")])))
    by (vm_compute; reflexivity).
  split; [exact H|].
  exact (@X9_report_comes_from_one_run _ log_platform (T "cv.tex")
           _ _ _ _ _ H).
Defined.

(** * Properties of [compile_tex_to_pdf] *)

(** X10.  For a path that does not exist the tool raises [ValueError]
    with the path as given, and runs no command. *)
Theorem X10_compile_missing_file (W : Type) (sp : shell_platform W)
  (tex_path tex_file : text) (w w1 w2 : W) (tr : list shell_event) :
  pf_resolve (sh_files sp) tex_path w = (Ok tex_file, w1) ->
  pf_exists (sh_files sp) tex_file w1 = (Ok false, w2) ->
  compile_tex_to_pdf sp tex_path (w, tr)
  = (Raised (Exn (T "ValueError") (T "TeX file does not exist: " ++ tex_path)),
     (w2, tr ++ [ShPath (EvResolve tex_path); ShPath (EvExists tex_file)])).
Proof.
  intros R X. unfold compile_tex_to_pdf, sbind, scall, sraise.
  rewrite R, X. cbn [negb]. rewrite <- app_assoc. reflexivity.
Qed.

Lemma X10_compile_missing_file_witness :
  pf_resolve (sh_files demo_shell) (T "cv.tex") [] = (Ok (T "cv.tex"), []) /\
  pf_exists (sh_files demo_shell) (T "cv.tex") [] = (Ok false, []) /\
  compile_tex_to_pdf demo_shell (T "cv.tex") ([], [])
  = (Raised (Exn (T "ValueError") (T "TeX file does not exist: cv.tex")),
     ([], [ShPath (EvResolve (T "cv.tex")); ShPath (EvExists (T "cv.tex"))])).
Proof.
  repeat (split; [reflexivity|]).
  exact (@X10_compile_missing_file _ demo_shell (T "cv.tex") (T "cv.tex")
           [] [] [] [] eq_refl eq_refl).
Defined.

(** X11.  Whenever the tool returns, it returns the path of the PDF
    beside the resolved document, and it has run the same command twice
    before it found that PDF: the calls are resolve, exists, the two
    runs and the test for the PDF, in this order. *)
Theorem X11_compile_returns_after_two_runs (W : Type) (sp : shell_platform W)
  (tex_path out : text) (w w' : W) (tr tr' : list shell_event) :
  compile_tex_to_pdf sp tex_path (w, tr) = (Returned out, (w', tr')) ->
  exists tex_file,
    out = pdf_path_of (sh_files sp) tex_file /\
    tr' = tr ++ [ShPath (EvResolve tex_path); ShPath (EvExists tex_file);
                 ShRun (pdflatex_cmd (pf_parent (sh_files sp) tex_file) tex_file);
                 ShRun (pdflatex_cmd (pf_parent (sh_files sp) tex_file) tex_file);
                 ShPath (EvExists out)].
Proof.
  unfold compile_tex_to_pdf, stry, sbind, scall, sraise, sret, pdf_path_of.
  intros H.
  destruct (pf_resolve _ tex_path w) as [[tex_file|e] w1]; [|discriminate].
  destruct (pf_exists _ tex_file w1) as [[[|]|e] w2]; try discriminate.
  cbn [negb] in H.
  destruct (sh_run sp _ w2) as [[[]|e] w3]; [|discriminate].
  destruct (sh_run sp _ w3) as [[[]|e] w4]; [|discriminate].
  destruct (pf_exists _ _ w4) as [[[|]|e] w5]; try discriminate.
  injection H as <- <- <-. exists tex_file. split; [reflexivity|].
  rewrite <- !app_assoc. reflexivity.
Qed.

Lemma X11_compile_returns_after_two_runs_witness :
  compile_tex_to_pdf demo_shell (T "cv.tex") ([T "cv.tex"], [])
  = (Returned (T "cv.pdf"),
     ([T "cv.pdf"; T "cv.pdf"; T "cv.tex"],
      [ShPath (EvResolve (T "cv.tex")); ShPath (EvExists (T "cv.tex"));
       ShRun (T "pdflatex -interaction=nonstopmode -output-directory= cv.tex");
       ShRun (T "pdflatex -interaction=nonstopmode -output-directory= cv.tex");
       ShPath (EvExists (T "cv.pdf"))])) /\
  exists tex_file,
    T "cv.pdf" = pdf_path_of (sh_files demo_shell) tex_file /\
    [ShPath (EvResolve (T "cv.tex")); ShPath (EvExists (T "cv.tex"));
     ShRun (T "pdflatex -interaction=nonstopmode -output-directory= cv.tex");
     ShRun (T "pdflatex -interaction=nonstopmode -output-directory= cv.tex");
     ShPath (EvExists (T "cv.pdf"))]
    = [] ++ [ShPath (EvResolve (T "cv.tex")); ShPath (EvExists tex_file);
             ShRun (pdflatex_cmd (pf_parent (sh_files demo_shell) tex_file) tex_file);
             ShRun (pdflatex_cmd (pf_parent (sh_files demo_shell) tex_file) tex_file);
             ShPath (EvExists (T "cv.pdf"))].
Proof.
  assert (H : compile_tex_to_pdf demo_shell (T "cv.tex") ([T "cv.tex"], [])
    = (Returned (T "cv.pdf"),
       ([T "cv.pdf"; T "cv.pdf"; T "cv.tex"],
        [ShPath (EvResolve (T "cv.tex")); ShPath (EvExists (T "cv.tex"));
         ShRun (T "pdflatex -interaction=nonstopmode -output-directory= cv.tex");
         ShRun (T "pdflatex -interaction=nonstopmode -output-directory= cv.tex");
         ShPath (EvExists (T "cv.pdf"))])))
    by (vm_compute; reflexivity).
  split; [exact H|].
  exact (@X11_compile_returns_after_two_runs _ demo_shell (T "cv.tex")
           _ _ _ _ _ H).
Defined.

(** X12.  Once the document is found, whatever goes wrong is raised as
    [ValueError] with the message [Error compiling TeX file: ] followed
    by the text of its cause, and the cause is one of four: the
    exception of the first run; that of the second run, after a first
    run that ended well; that of the existence test of the PDF, after
    two such runs; or, when that test finds no PDF, the tool's own
    [ValueError] saying that the PDF was not generated. *)
Theorem X12_compile_failures_wrapped (W : Type) (sp : shell_platform W)
  (tex_path tex_file : text) (e : exn) (w w1 w2 w' : W)
  (tr tr' : list shell_event) :
  pf_resolve (sh_files sp) tex_path w = (Ok tex_file, w1) ->
  pf_exists (sh_files sp) tex_file w1 = (Ok true, w2) ->
  compile_tex_to_pdf sp tex_path (w, tr) = (Raised e, (w', tr')) ->
  exists cause,
    e = Exn (T "ValueError")
          (T "Error compiling TeX file: " ++ str_of_exn cause) /\
    (sh_run sp (pdflatex_cmd (pf_parent (sh_files sp) tex_file) tex_file) w2
     = (Err cause, w') \/
     (exists w3,
        sh_run sp (pdflatex_cmd (pf_parent (sh_files sp) tex_file) tex_file) w2
        = (Ok tt, w3) /\
        sh_run sp (pdflatex_cmd (pf_parent (sh_files sp) tex_file) tex_file) w3
        = (Err cause, w')) \/
     (exists w3 w4,
        sh_run sp (pdflatex_cmd (pf_parent (sh_files sp) tex_file) tex_file) w2
        = (Ok tt, w3) /\
        sh_run sp (pdflatex_cmd (pf_parent (sh_files sp) tex_file) tex_file) w3
        = (Ok tt, w4) /\
        pf_exists (sh_files sp) (pdf_path_of (sh_files sp) tex_file) w4
        = (Err cause, w')) \/
     (exists w3 w4,
        sh_run sp (pdflatex_cmd (pf_parent (sh_files sp) tex_file) tex_file) w2
        = (Ok tt, w3) /\
        sh_run sp (pdflatex_cmd (pf_parent (sh_files sp) tex_file) tex_file) w3
        = (Ok tt, w4) /\
        pf_exists (sh_files sp) (pdf_path_of (sh_files sp) tex_file) w4
        = (Ok false, w') /\
        cause = Exn (T "ValueError")
                  (T "PDF file was not generated. Check TeX file for errors."))).
Proof.
  intros R X. unfold pdf_path_of.
  unfold compile_tex_to_pdf, stry, sbind, scall, sraise, sret.
  rewrite R, X. cbn [negb]. intros H.
  destruct (sh_run sp _ w2) as [[[]|e1] w3] eqn:R1.
  - destruct (sh_run sp _ w3) as [[[]|e2] w4] eqn:R2.
    + destruct (pf_exists _ _ w4) as [[[|]|e3] w5] eqn:P.
      * discriminate.
      * injection H as <- <- _.
        exists (Exn (T "ValueError")
                  (T "PDF file was not generated. Check TeX file for errors.")).
        split; [reflexivity|]. right. right. right. exists w3, w4. auto.
      * injection H as <- <- _. exists e3. split; [reflexivity|].
        right. right. left. exists w3, w4. auto.
    + injection H as <- <- _. exists e2. split; [reflexivity|].
      right. left. exists w3. auto.
  - injection H as <- <- _. exists e1. split; [reflexivity|]. left.
    reflexivity.
Qed.

Lemma X12_compile_failures_wrapped_witness :
  pf_resolve (sh_files idle_shell) (T "cv.tex") [T "cv.tex"]
  = (Ok (T "cv.tex"), [T "cv.tex"]) /\
  pf_exists (sh_files idle_shell) (T "cv.tex") [T "cv.tex"]
  = (Ok true, [T "cv.tex"]) /\
  compile_tex_to_pdf idle_shell (T "cv.tex") ([T "cv.tex"], [])
  = (Raised (Exn (T "ValueError")
       (T "Error compiling TeX file: PDF file was not generated. Check TeX file for errors.")),
     ([T "cv.tex"],
      [ShPath (EvResolve (T "cv.tex")); ShPath (EvExists (T "cv.tex"));
       ShRun (T "pdflatex -interaction=nonstopmode -output-directory= cv.tex");
       ShRun (T "pdflatex -interaction=nonstopmode -output-directory= cv.tex");
       ShPath (EvExists (T "cv.pdf"))])) /\
  exists cause,
    Exn (T "ValueError")
      (T "Error compiling TeX file: PDF file was not generated. Check TeX file for errors.")
    = Exn (T "ValueError") (T "Error compiling TeX file: " ++ str_of_exn cause) /\
    (sh_run idle_shell (T "pdflatex -interaction=nonstopmode -output-directory= cv.tex")
       [T "cv.tex"] = (Err cause, [T "cv.tex"]) \/
     (exists w3,
        sh_run idle_shell (T "pdflatex -interaction=nonstopmode -output-directory= cv.tex")
          [T "cv.tex"] = (Ok tt, w3) /\
        sh_run idle_shell (T "pdflatex -interaction=nonstopmode -output-directory= cv.tex")
          w3 = (Err cause, [T "cv.tex"])) \/
     (exists w3 w4,
        sh_run idle_shell (T "pdflatex -interaction=nonstopmode -output-directory= cv.tex")
          [T "cv.tex"] = (Ok tt, w3) /\
        sh_run idle_shell (T "pdflatex -interaction=nonstopmode -output-directory= cv.tex")
          w3 = (Ok tt, w4) /\
        pf_exists (sh_files idle_shell) (T "cv.pdf") w4
        = (Err cause, [T "cv.tex"])) \/
     (exists w3 w4,
        sh_run idle_shell (T "pdflatex -interaction=nonstopmode -output-directory= cv.tex")
          [T "cv.tex"] = (Ok tt, w3) /\
        sh_run idle_shell (T "pdflatex -interaction=nonstopmode -output-directory= cv.tex")
          w3 = (Ok tt, w4) /\
        pf_exists (sh_files idle_shell) (T "cv.pdf") w4
        = (Ok false, [T "cv.tex"]) /\
        cause = Exn (T "ValueError")
                  (T "PDF file was not generated. Check TeX file for errors."))).
Proof.
  assert (H : compile_tex_to_pdf idle_shell (T "cv.tex") ([T "cv.tex"], [])
    = (Raised (Exn (T "ValueError")
         (T "Error compiling TeX file: PDF file was not generated. Check TeX file for errors.")),
       ([T "cv.tex"],
        [ShPath (EvResolve (T "cv.tex")); ShPath (EvExists (T "cv.tex"));
         ShRun (T "pdflatex -interaction=nonstopmode -output-directory= cv.tex");
         ShRun (T "pdflatex -interaction=nonstopmode -output-directory= cv.tex");
         ShPath (EvExists (T "cv.pdf"))])))
    by (vm_compute; reflexivity).
  do 2 (split; [reflexivity|]). split; [exact H|].
  exact (@X12_compile_failures_wrapped _ idle_shell (T "cv.tex") (T "cv.tex")
           _ [T "cv.tex"] [T "cv.tex"] [T "cv.tex"] _ [] _ eq_refl eq_refl H).
Defined.

(** X13.  When both runs end well and the PDF is not there, the tool
    raises; its own message about the missing PDF is caught by its own
    handler and comes out behind the prefix of X12. *)
Theorem X13_compile_missing_pdf (W : Type) (sp : shell_platform W)
  (tex_path tex_file : text) (w w1 w2 w3 w4 w5 : W) (tr : list shell_event) :
  pf_resolve (sh_files sp) tex_path w = (Ok tex_file, w1) ->
  pf_exists (sh_files sp) tex_file w1 = (Ok true, w2) ->
  sh_run sp (pdflatex_cmd (pf_parent (sh_files sp) tex_file) tex_file) w2
  = (Ok tt, w3) ->
  sh_run sp (pdflatex_cmd (pf_parent (sh_files sp) tex_file) tex_file) w3
  = (Ok tt, w4) ->
  pf_exists (sh_files sp) (pdf_path_of (sh_files sp) tex_file) w4
  = (Ok false, w5) ->
  fst (compile_tex_to_pdf sp tex_path (w, tr))
  = Raised (Exn (T "ValueError")
      (T "Error compiling TeX file: PDF file was not generated. Check TeX file for errors.")).
Proof.
  unfold pdf_path_of. intros R X R1 R2 P.
  unfold compile_tex_to_pdf, stry, sbind, scall, sraise, sret.
  rewrite R, X. cbn [negb]. rewrite R1, R2, P. reflexivity.
Qed.

Lemma X13_compile_missing_pdf_witness :
  pf_resolve (sh_files idle_shell) (T "cv.tex") [T "cv.tex"]
  = (Ok (T "cv.tex"), [T "cv.tex"]) /\
  pf_exists (sh_files idle_shell) (T "cv.tex") [T "cv.tex"]
  = (Ok true, [T "cv.tex"]) /\
  pf_exists (sh_files idle_shell) (T "cv.pdf") [T "cv.tex"]
  = (Ok false, [T "cv.tex"]) /\
  fst (compile_tex_to_pdf idle_shell (T "cv.tex") ([T "cv.tex"], []))
  = Raised (Exn (T "ValueError")
      (T "Error compiling TeX file: PDF file was not generated. Check TeX file for errors.")).
Proof.
  repeat (split; [reflexivity|]).
  exact (@X13_compile_missing_pdf _ idle_shell (T "cv.tex") (T "cv.tex")
           [T "cv.tex"] [T "cv.tex"] [T "cv.tex"] [T "cv.tex"] [T "cv.tex"]
           [T "cv.tex"] [] eq_refl eq_refl eq_refl eq_refl eq_refl).
Defined.

(** X14.  The second run is not attempted when the first one fails: the
    tool raises with the text of the failure, after one run. *)
Theorem X14_compile_stops_at_first_failure (W : Type) (sp : shell_platform W)
  (tex_path tex_file : text) (e : exn) (w w1 w2 w3 : W)
  (tr : list shell_event) :
  pf_resolve (sh_files sp) tex_path w = (Ok tex_file, w1) ->
  pf_exists (sh_files sp) tex_file w1 = (Ok true, w2) ->
  sh_run sp (pdflatex_cmd (pf_parent (sh_files sp) tex_file) tex_file) w2
  = (Err e, w3) ->
  compile_tex_to_pdf sp tex_path (w, tr)
  = (Raised (Exn (T "ValueError")
               (T "Error compiling TeX file: " ++ str_of_exn e)),
     (w3, tr ++ [ShPath (EvResolve tex_path); ShPath (EvExists tex_file);
                 ShRun (pdflatex_cmd (pf_parent (sh_files sp) tex_file)
                          tex_file)])).
Proof.
  intros R X R1. unfold compile_tex_to_pdf, stry, sbind, scall, sraise, sret.
  rewrite R, X. cbn [negb]. rewrite R1. rewrite <- !app_assoc. reflexivity.
Qed.

Lemma X14_compile_stops_at_first_failure_witness :
  pf_resolve (sh_files failing_shell) (T "cv.tex") [T "cv.tex"]
  = (Ok (T "cv.tex"), [T "cv.tex"]) /\
  pf_exists (sh_files failing_shell) (T "cv.tex") [T "cv.tex"]
  = (Ok true, [T "cv.tex"]) /\
  compile_tex_to_pdf failing_shell (T "cv.tex") ([T "cv.tex"], [])
  = (Raised (Exn (T "ValueError")
       (T "Error compiling TeX file: Command returned non-zero exit status 1.")),
     ([T "cv.tex"],
      [ShPath (EvResolve (T "cv.tex")); ShPath (EvExists (T "cv.tex"));
       ShRun (T "pdflatex -interaction=nonstopmode -output-directory= cv.tex")])).
Proof.
  do 2 (split; [reflexivity|]).
  exact (@X14_compile_stops_at_first_failure _ failing_shell (T "cv.tex")
           (T "cv.tex") _ [T "cv.tex"] [T "cv.tex"] [T "cv.tex"] [T "cv.tex"]
           [] eq_refl eq_refl eq_refl).
Defined.

(** X15.  An error dictionary of [validate_tex] has one of three
    messages: the file does not exist, the file is not a LaTeX file, or
    [Failed to validate LaTeX file: ] followed by the text of an
    exception. *)
Theorem X15_error_values (W : Type) (pf : platform W)
  (tex_path msg : text) (s s' : W * list event) :
  validate_tex pf tex_path s = (Returned (ErrorValue msg), s') ->
  msg = T "File " ++ tex_path ++ T " does not exist" \/
  msg = T "File " ++ tex_path ++ T " is not a LaTeX file" \/
  exists e, msg = T "Failed to validate LaTeX file: " ++ str_of_exn e.
Proof.
  destruct s as [w tr].
  unfold validate_tex, try_except, bind, call, ret, pure. intros H.
  assert (Failed : forall e tail,
    (Returned (ErrorValue (T "Failed to validate LaTeX file: "
                           ++ str_of_exn e)), tail)
    = (Returned (ErrorValue msg), s') ->
    msg = T "File " ++ tex_path ++ T " does not exist" \/
    msg = T "File " ++ tex_path ++ T " is not a LaTeX file" \/
    exists e, msg = T "Failed to validate LaTeX file: " ++ str_of_exn e).
  { intros e tail E. injection E as <- _. right. right. exists e. reflexivity. }
  destruct (pf_resolve pf tex_path w) as [[tex_file|e] w1]; [|eauto].
  destruct (pf_exists pf tex_file w1) as [[[|]|e] w2]; [| |eauto].
  2: { injection H as <- _. left. reflexivity. }
  cbn [negb] in H.
  destruct (endswith tex_file (T ".tex")).
  2: { injection H as <- _. right. left. reflexivity. }
  cbn [negb] in H.
  destruct (pf_pdflatex pf _ _ w2) as [[stdout|e] w3]; [|eauto].
  destruct (pf_exists pf _ w3) as [[[|]|e] w4]; [| |eauto].
  - destruct (pf_read pf _ w4) as [[output|e] w5]; [|eauto].
    destruct (parse_log output) as [[ws es]|e|]; [|eauto|discriminate].
    destruct (pf_exists pf _ w5) as [[still|e] w6]; [discriminate|eauto].
  - destruct (parse_log stdout) as [[ws es]|e|]; [|eauto|discriminate].
    destruct (pf_exists pf _ w4) as [[still|e] w5]; [discriminate|eauto].
Qed.

Lemma X15_error_values_witness :
  validate_tex broken_platform (T "cv.tex") ([T "cv.tex"], [])
  = (Returned (ErrorValue
       (T "Failed to validate LaTeX file: No such file or directory: 'pdflatex'")),
     ([T "cv.tex"],
      [EvResolve (T "cv.tex"); EvExists (T "cv.tex");
       EvPdflatex [] (T "cv.tex")])) /\
  (T "Failed to validate LaTeX file: No such file or directory: 'pdflatex'"
   = T "File " ++ T "cv.tex" ++ T " does not exist" \/
   T "Failed to validate LaTeX file: No such file or directory: 'pdflatex'"
   = T "File " ++ T "cv.tex" ++ T " is not a LaTeX file" \/
   exists e,
     T "Failed to validate LaTeX file: No such file or directory: 'pdflatex'"
     = T "Failed to validate LaTeX file: " ++ str_of_exn e).
Proof.
  assert (H : validate_tex broken_platform (T "cv.tex") ([T "cv.tex"], [])
    = (Returned (ErrorValue
         (T "Failed to validate LaTeX file: No such file or directory: 'pdflatex'")),
       ([T "cv.tex"],
        [EvResolve (T "cv.tex"); EvExists (T "cv.tex");
         EvPdflatex [] (T "cv.tex")])))
    by (vm_compute; reflexivity).
  split; [exact H|].
  exact (@X15_error_values _ broken_platform (T "cv.tex") _ _ _ H).
Defined.

(** X16.  In every environment and whatever the outcome,
    [validate_tex] keeps the calls made before it, runs [pdflatex] at
    most once and reads at most one file. *)
Theorem X16_at_most_one_run_and_read (W : Type) (pf : platform W)
  (tex_path : text) (w : W) (tr : list event) :
  exists later,
    snd (snd (validate_tex pf tex_path (w, tr))) = tr ++ later /\
    length (filter is_run later) <= 1 /\
    length (filter is_read later) <= 1.
Proof.
  unfold validate_tex, try_except, bind, call, ret, pure.
  destruct (pf_resolve pf tex_path w) as [[tex_file|e] w1];
    [|eexists; split; [reflexivity|simpl; lia]].
  destruct (pf_exists pf tex_file w1) as [[[|]|e] w2];
    [|eexists; split; [cbn; rewrite <- !app_assoc; reflexivity|simpl; lia]
     |eexists; split; [cbn; rewrite <- !app_assoc; reflexivity|simpl; lia]].
  cbn [negb].
  destruct (endswith tex_file (T ".tex"));
    [|eexists; split; [cbn; rewrite <- !app_assoc; reflexivity|simpl; lia]].
  cbn [negb].
  destruct (pf_pdflatex pf _ _ w2) as [[stdout|e] w3];
    [|eexists; split; [cbn; rewrite <- !app_assoc; reflexivity|simpl; lia]].
  destruct (pf_exists pf _ w3) as [[[|]|e] w4];
    [| |eexists; split; [cbn; rewrite <- !app_assoc; reflexivity|simpl; lia]].
  - destruct (pf_read pf _ w4) as [[output|e] w5];
      [|eexists; split; [cbn; rewrite <- !app_assoc; reflexivity|simpl; lia]].
    destruct (parse_log output) as [[ws es]|e|];
      [|eexists; split; [cbn; rewrite <- !app_assoc; reflexivity|simpl; lia]
       |eexists; split; [cbn; rewrite <- !app_assoc; reflexivity|simpl; lia]].
    destruct (pf_exists pf _ w5) as [[still|e] w6];
      eexists; (split; [cbn; rewrite <- !app_assoc; reflexivity|simpl; lia]).
  - destruct (parse_log stdout) as [[ws es]|e|];
      [|eexists; split; [cbn; rewrite <- !app_assoc; reflexivity|simpl; lia]
       |eexists; split; [cbn; rewrite <- !app_assoc; reflexivity|simpl; lia]].
    destruct (pf_exists pf _ w4) as [[still|e] w5];
      eexists; (split; [cbn; rewrite <- !app_assoc; reflexivity|simpl; lia]).
Qed.
